(** * SupersetClient: a shallow embedding of
      packages/superset-ui-connection/src/SupersetClient.ts

    The class [SupersetClient] and the module-level registry [PublicAPI] are
    embedded over an explicit machine state: a store of client objects, a
    store of header objects, a store of promises, the microtask queue and the
    trace of observable effects (transport calls and writes of the two
    authentication fields). *)

From Stdlib Require Import ZArith String Ascii List Lia.
From stdpp Require Import base option list gmap strings.

Local Open Scope string_scope.
Local Open Scope Z_scope.
Local Open Scope list_scope.

Set Warnings "-register-all".

(** ** JavaScript values *)

(** The values that flow through the client at run time: the parsed body of a
    response, the token it carries, and the payloads of rejections.  Numbers
    are only passed around, never computed with, and are kept as integers.
    [JErr] is an [Error] instance (name and message). *)
Inductive jsval : Type :=
  | JUndefined
  | JNull
  | JBool (b : bool)
  | JNum (n : Z)
  | JStr (s : string)
  | JArr (xs : list jsval)
  | JObj (fields : list (string * jsval))
  | JErr (name message : string).

(** [typeof v] *)
Definition typeof (v : jsval) : string :=
  match v with
  | JUndefined => "undefined"
  | JNull => "object"
  | JBool _ => "boolean"
  | JNum _ => "number"
  | JStr _ => "string"
  | JArr _ | JObj _ | JErr _ _ => "object"
  end.

(** Lookup of an own property in an object literal given by its fields (a
    key occurs once in an object; the first binding is the one read). *)
Fixpoint field (k : string) (fs : list (string * jsval)) : jsval :=
  match fs with
  | [] => JUndefined
  | (k', v) :: fs' => if String.eqb k k' then v else field k fs'
  end.

(** [v.k] for a property name [k] that is neither an array index nor
    [length]: reading a property of [undefined] or [null] throws a
    [TypeError] ([inr]); primitives and arrays have no such property. *)
Definition get_prop (v : jsval) (k : string) : jsval + jsval :=
  match v with
  | JUndefined =>
      inr (JErr "TypeError" ("Cannot read property '" +:+ k +:+ "' of undefined"))
  | JNull =>
      inr (JErr "TypeError" ("Cannot read property '" +:+ k +:+ "' of null"))
  | JObj fs => inl (field k fs)
  | JErr n m =>
      inl (if String.eqb k "message" then JStr m
           else if String.eqb k "name" then JStr n else JUndefined)
  | _ => inl JUndefined
  end.

(** [a || b] on optional strings and optional numbers: [undefined], the empty
    string and [0] are falsy. *)
Definition truthy_str (o : option string) : bool :=
  match o with Some s => negb (String.eqb s "") | None => false end.

Definition truthy_num (o : option Z) : bool :=
  match o with Some n => negb (n =? 0) | None => false end.

Definition or_str (a b : option string) : option string :=
  if truthy_str a then a else b.

(** [a || b] where [b] is a string. *)
Definition or_else_str (a : option string) (b : string) : string :=
  match a with
  | Some s => if String.eqb s "" then b else s
  | None => b
  end.

Definition or_num (a b : option Z) : option Z :=
  if truthy_num a then a else b.

(** [s.slice(from)] and [s.slice(from, to)]: negative positions count from
    the end, and positions are clamped to the string. *)
Definition slice (s : string) (from : Z) (to : option Z) : string :=
  let len := Z.of_nat (String.length s) in
  let pos k := if k <? 0 then Z.max (len + k) 0 else Z.min k len in
  let a := pos from in
  let b := match to with Some t => pos t | None => len end in
  substring (Z.to_nat a) (Z.to_nat (b - a)) s.

(** ** Types of the module *)

Definition ref := nat.

Definition CsrfToken := string.

Inductive Protocol : Type := Http | Https.

Definition protocol_string (p : Protocol) : string :=
  match p with Http => "http:" | Https => "https:" end.

(** Modelled from the spec: the declarations of [./types] are not part of the
    sources at hand.  [Headers] is a mapping from strings to strings, [Host]
    a string, [Mode] and [Credentials] strings of an enumeration,
    [ClientTimeout] an optional number of milliseconds. *)
Abbreviation Headers := (gmap string string).
Definition Host := string.
Definition Mode := string.
Definition Credentials := option string.
Definition ClientTimeout := option Z.

(** [ClientConfig]: every field is optional; [cfg_headers] is a reference to
    a header object owned by the caller. *)
Record ClientConfig : Type := {
  cfg_credentials : Credentials;
  cfg_csrfToken : option CsrfToken;
  cfg_headers : option ref;
  cfg_host : option Host;
  cfg_protocol : option Protocol;
  cfg_mode : option Mode;
  cfg_timeout : ClientTimeout;
}.

(** The config [{}]. *)
Definition empty_config : ClientConfig :=
  {| cfg_credentials := None; cfg_csrfToken := None; cfg_headers := None;
     cfg_host := None; cfg_protocol := None; cfg_mode := None;
     cfg_timeout := None |}.

(** The fields of a [SupersetClient] instance.  [csrfToken] holds whatever
    value was last assigned, [csrfPromise] and [headers] are references into
    the promise store and the object store. *)
Record SupersetClient : Type := {
  credentials : Credentials;
  csrfToken : jsval;
  csrfPromise : ref;
  protocol : Protocol;
  host : Host;
  headers : ref;
  mode : Mode;
  timeout : ClientTimeout;
}.

(** Modelled from the spec: [RequestConfig] of [./types], restricted to the
    fields that [get] and [post] destructure. *)
Record RequestConfig : Type := {
  req_body : jsval;
  req_credentials : Credentials;
  req_endpoint : option string;
  req_headers : option ref;
  req_host : option Host;
  req_mode : option Mode;
  req_parseMethod : option string;
  req_postPayload : jsval;
  req_signal : option nat;
  req_stringify : option bool;
  req_timeout : ClientTimeout;
  req_url : option string;
}.

(** The argument of [getUrl]. *)
Record UrlArgs : Type := {
  url_host : option Host;
  url_endpoint : option string;
  url_url : option string;
}.

(** ** [getUrl] *)

Definition getUrl (this : SupersetClient) (a : UrlArgs) : string :=
  let endpoint := default "" (url_endpoint a) in
  match url_url a with
  | Some url => url
  | None =>
      let host := or_else_str (url_host a) (host this) in
      let cleanHost :=
        if String.eqb (slice host (-1) None) "/"
        then slice host 0 (Some (-1)) else host in
      protocol_string (protocol this) +:+ "//" +:+ cleanHost +:+ "/" +:+
        (if decide (String.get 0 endpoint = Some "/"%char)
         then slice endpoint 1 None else endpoint)
  end.

(** [v === null] and [v === undefined] *)
Definition is_null (v : jsval) : bool :=
  match v with JNull => true | _ => false end.

Definition is_undefined (v : jsval) : bool :=
  match v with JUndefined => true | _ => false end.

(** ** Promises, jobs and the machine state *)

(** Modelled from the spec: the response of the transport collaborator
    ([SupersetClientResponse] of [./types]); [json] is the parsed body,
    [undefined] when the body was not parsed as JSON. *)
Record SupersetClientResponse : Type := {
  json : jsval;
  text : option string;
}.

(** A promise is fulfilled with a token or with a response, and rejected with
    any value. *)
Inductive pvalue : Type :=
  | VJs (v : jsval)
  | VResp (r : SupersetClientResponse).

Inductive settled : Type :=
  | Fulfilled (v : pvalue)
  | Rejected (e : jsval).

(** The three closures of the class that are passed to [then], with the
    variables they capture. *)
Inductive handler : Type :=
  | KGet (this : ref) (r : RequestConfig)
  | KPost (this : ref) (r : RequestConfig)
  | KToken (this : ref).

(** A reaction registered on a promise: [p.then(h)] with its derived promise
    [d], or the pair of resolving functions of a promise [d] that follows
    [p]. *)
Inductive reaction : Type :=
  | RThen (h : handler) (d : ref)
  | RForward (d : ref).

Inductive pstatus : Type :=
  | Pending (rs : list reaction)
  | Settled (o : settled).

Record promise : Type := {
  of_transport : bool;
  status : pstatus;
}.

(** Microtasks: run a reaction of a settled promise; make [d] follow the
    promise [p] it was resolved with. *)
Inductive job : Type :=
  | JReact (r : reaction) (o : settled)
  | JAdopt (d p : ref).

Inductive Method : Type := GET | POST.

(** The argument object handed to [callApi]; the header object built for the
    call is recorded by its contents. *)
Record ApiCall : Type := {
  api_body : jsval;
  api_credentials : Credentials;
  api_headers : Headers;
  api_method : Method;
  api_mode : Mode;
  api_parseMethod : option string;
  api_postPayload : jsval;
  api_signal : option nat;
  api_stringify : option bool;
  api_timeout : ClientTimeout;
  api_url : string;
}.

(** Observable effects, in program order. *)
Inductive event : Type :=
  | EvCallApi (a : ApiCall) (p : ref)
  | EvSetCsrfToken (this : ref) (v : jsval)
  | EvSetCsrfPromise (this : ref) (p : ref).

Record state : Type := {
  clients : list SupersetClient;
  objects : list Headers;
  promises : list promise;
  jobs : list job;
  trace : list event;
  singletonClient : option ref;
}.

Definition initial : state :=
  {| clients := []; objects := []; promises := []; jobs := []; trace := [];
     singletonClient := None |}.

Definition with_clients (f : list SupersetClient -> list SupersetClient)
    (s : state) : state :=
  {| clients := f (clients s); objects := objects s; promises := promises s;
     jobs := jobs s; trace := trace s; singletonClient := singletonClient s |}.

Definition with_objects (f : list Headers -> list Headers) (s : state) : state :=
  {| clients := clients s; objects := f (objects s); promises := promises s;
     jobs := jobs s; trace := trace s; singletonClient := singletonClient s |}.

Definition with_promises (f : list promise -> list promise) (s : state) : state :=
  {| clients := clients s; objects := objects s; promises := f (promises s);
     jobs := jobs s; trace := trace s; singletonClient := singletonClient s |}.

Definition with_jobs (f : list job -> list job) (s : state) : state :=
  {| clients := clients s; objects := objects s; promises := promises s;
     jobs := f (jobs s); trace := trace s; singletonClient := singletonClient s |}.

Definition with_trace (f : list event -> list event) (s : state) : state :=
  {| clients := clients s; objects := objects s; promises := promises s;
     jobs := jobs s; trace := f (trace s); singletonClient := singletonClient s |}.

Definition with_singleton (o : option ref) (s : state) : state :=
  {| clients := clients s; objects := objects s; promises := promises s;
     jobs := jobs s; trace := trace s; singletonClient := o |}.

(** ** The monad of the embedding *)

(** A computation returns, throws, or is stuck on a dangling reference
    (which no JavaScript program can produce). *)
Inductive result (A : Type) : Type :=
  | Ok (a : A) (s : state)
  | Exn (e : jsval) (s : state)
  | Stuck.
Arguments Ok {A} a s.
Arguments Exn {A} e s.
Arguments Stuck {A}.

Definition M (A : Type) : Type := state -> result A.

Definition ret {A} (a : A) : M A := fun s => Ok a s.

Definition bind {A B} (m : M A) (k : A -> M B) : M B :=
  fun s => match m s with
           | Ok a s' => k a s'
           | Exn e s' => Exn e s'
           | Stuck => Stuck
           end.

Definition throw {A} (e : jsval) : M A := fun s => Exn e s.

Definition try_catch {A} (m : M A) (h : jsval -> M A) : M A :=
  fun s => match m s with
           | Ok a s' => Ok a s'
           | Exn e s' => h e s'
           | Stuck => Stuck
           end.

Definition read {A} (f : state -> option A) : M A :=
  fun s => match f s with Some a => Ok a s | None => Stuck end.

Definition modify (f : state -> state) : M unit := fun s => Ok tt (f s).

Declare Scope js_scope.
Delimit Scope js_scope with js.
Notation "x <- m ;; k" := (bind m (fun x => k))
  (at level 100, m at next level, right associativity) : js_scope.
Notation "m ;;; k" := (bind m (fun _ => k))
  (at level 100, right associativity) : js_scope.
Local Open Scope js_scope.

(** ** Runtime: stores, promises, the microtask queue *)

Definition emit (ev : event) : M unit :=
  modify (with_trace (fun t => t ++ [ev])).

Definition enqueue (js : list job) : M unit :=
  modify (with_jobs (fun q => q ++ js)).

Definition new_object (h : Headers) : M ref :=
  fun s => Ok (length (objects s)) (with_objects (fun os => os ++ [h]) s).

Definition get_object (r : ref) : M Headers :=
  read (fun s => objects s !! r).

(** [{...o}] for an optional object. *)
Definition spread (o : option ref) : M Headers :=
  match o with
  | Some r => get_object r
  | None => ret ∅
  end.

Definition new_client (c : SupersetClient) : M ref :=
  fun s => Ok (length (clients s)) (with_clients (fun cs => cs ++ [c]) s).

Definition get_client (this : ref) : M SupersetClient :=
  read (fun s => clients s !! this).

Definition upd_csrfToken (v : jsval) (c : SupersetClient) : SupersetClient :=
  {| credentials := credentials c; csrfToken := v;
     csrfPromise := csrfPromise c; protocol := protocol c; host := host c;
     headers := headers c; mode := mode c; timeout := timeout c |}.

Definition upd_csrfPromise (p : ref) (c : SupersetClient) : SupersetClient :=
  {| credentials := credentials c; csrfToken := csrfToken c;
     csrfPromise := p; protocol := protocol c; host := host c;
     headers := headers c; mode := mode c; timeout := timeout c |}.

Definition upd_headers (h : ref) (c : SupersetClient) : SupersetClient :=
  {| credentials := credentials c; csrfToken := csrfToken c;
     csrfPromise := csrfPromise c; protocol := protocol c; host := host c;
     headers := h; mode := mode c; timeout := timeout c |}.

(** [this.csrfToken = v], [this.csrfPromise = p], [this.headers = h] *)
Definition set_csrfToken (this : ref) (v : jsval) : M unit :=
  c <- get_client this ;;
  modify (with_clients (fun cs => <[this := upd_csrfToken v c]> cs)) ;;;
  emit (EvSetCsrfToken this v).

Definition set_csrfPromise (this : ref) (p : ref) : M unit :=
  c <- get_client this ;;
  modify (with_clients (fun cs => <[this := upd_csrfPromise p c]> cs)) ;;;
  emit (EvSetCsrfPromise this p).

Definition set_headers (this : ref) (h : ref) : M unit :=
  c <- get_client this ;;
  modify (with_clients (fun cs => <[this := upd_headers h c]> cs)).

Definition new_promise (tr : bool) (st : pstatus) : M ref :=
  fun s => Ok (length (promises s))
             (with_promises
                (fun ps => ps ++ [{| of_transport := tr; status := st |}]) s).

Definition get_promise (p : ref) : M promise :=
  read (fun s => promises s !! p).

Definition set_status (p : ref) (st : pstatus) : M unit :=
  pr <- get_promise p ;;
  modify (with_promises
            (fun ps => <[p := {| of_transport := of_transport pr;
                                 status := st |}]> ps)).

(** [Promise.resolve(v)] for a value that is not a promise, and
    [Promise.reject(e)]. *)
Definition Promise_resolve (v : pvalue) : M ref :=
  new_promise false (Settled (Fulfilled v)).

Definition Promise_reject (e : jsval) : M ref :=
  new_promise false (Settled (Rejected e)).

(** Settling a pending promise schedules its reactions, in the order of their
    registration; a settled promise stays as it is. *)
Definition settle (p : ref) (o : settled) : M unit :=
  pr <- get_promise p ;;
  match status pr with
  | Pending rs =>
      set_status p (Settled o) ;;; enqueue (map (fun r => JReact r o) rs)
  | Settled _ => ret tt
  end.

(** Registering a reaction: kept by a pending promise, scheduled at once on a
    settled one. *)
Definition add_reaction (p : ref) (r : reaction) : M unit :=
  pr <- get_promise p ;;
  match status pr with
  | Pending rs => set_status p (Pending (rs ++ [r]))
  | Settled o => enqueue [JReact r o]
  end.

(** [p.then(h)] *)
Definition promise_then (p : ref) (h : handler) : M ref :=
  d <- new_promise false (Pending []) ;;
  add_reaction p (RThen h d) ;;;
  ret d.

(** Resolving the promise [d] with the promise [p]: a microtask will make
    [d] follow [p]. *)
Definition resolve_with (d p : ref) : M unit :=
  enqueue [JAdopt d p].

(** An [async] method whose body returns a promise: the method returns a new
    promise, resolved with the promise the body returns and rejected with
    what the body throws. *)
Definition async (body : M ref) : M ref :=
  o <- new_promise false (Pending []) ;;
  try_catch (p <- body ;; resolve_with o p)
            (fun e => settle o (Rejected e)) ;;;
  ret o.

(** Modelled from the spec: [callApi] of [./callApi], the transport
    collaborator.  It receives the argument object and returns a promise
    that the environment settles later, with a response or with a network or
    timeout error (see [deliver]). *)
Definition callApi (a : ApiCall) : M ref :=
  p <- new_promise true (Pending []) ;;
  emit (EvCallApi a p) ;;;
  ret p.

(** ** The class [SupersetClient] *)

Definition isAuthenticated (this : ref) : M bool :=
  c <- get_client this ;;
  ret (negb (is_null (csrfToken c)) && negb (is_undefined (csrfToken c))).

Definition ensureAuth (this : ref) : M ref :=
  c <- get_client this ;;
  ret (csrfPromise c).

(** The payload of the promise that the constructor sets first. *)
Definition no_token_message (login_url : string) : string :=
  "SupersetClient has no CSRF token, ensure it is initialized or"
  +:+ String "010"%char "      try logging into the Superset instance at "
  +:+ login_url.

Definition error_payload (message : string) : jsval :=
  JObj [("error", JStr message)].

(** [new SupersetClient(config)].  The fields are assigned in the order of
    the source; the record is built with the reference that
    [Promise.reject] is about to return, so that [getUrl] can be applied to
    the instance when the message is computed. *)
Definition constructor (config : option ClientConfig) : M ref :=
  let cfg := default empty_config config in
  h0 <- spread (cfg_headers cfg) ;;
  h <- new_object h0 ;;
  p0 <- read (fun s => Some (length (promises s))) ;;
  let token :=
    match cfg_csrfToken cfg with Some t => JStr t | None => JUndefined end in
  let this0 :=
    {| credentials := cfg_credentials cfg;
       csrfToken := token;
       csrfPromise := p0;
       protocol := default Http (cfg_protocol cfg);
       host := default "localhost" (cfg_host cfg);
       headers := h;
       mode := default "same-origin" (cfg_mode cfg);
       timeout := cfg_timeout cfg |} in
  this <- new_client this0 ;;
  emit (EvSetCsrfToken this token) ;;;
  Promise_reject
    (error_payload
       (no_token_message
          (getUrl this0 {| url_host := None; url_endpoint := Some "/login";
                           url_url := None |}))) ;;;
  emit (EvSetCsrfPromise this p0) ;;;
  match token with
  | JStr t =>
      hs <- get_object h ;;
      h' <- new_object (<["X-CSRFToken" := t]> hs) ;;
      set_headers this h' ;;;
      p1 <- Promise_resolve (VJs token) ;;
      set_csrfPromise this p1 ;;;
      ret this
  | _ => ret this
  end.

Definition token_endpoint : string := "superset/csrf_token/".

Definition getCSRFToken (this : ref) : M ref :=
  async (
    set_csrfToken this JUndefined ;;;
    c <- get_client this ;;
    hs <- get_object (headers c) ;;
    t <- callApi
           {| api_body := JUndefined;
              api_credentials := credentials c;
              api_headers := hs;
              api_method := GET;
              api_mode := mode c;
              api_parseMethod := None;
              api_postPayload := JUndefined;
              api_signal := None;
              api_stringify := None;
              api_timeout := timeout c;
              api_url := getUrl c {| url_host := None;
                                     url_endpoint := Some token_endpoint;
                                     url_url := None |} |} ;;
    d <- promise_then t (KToken this) ;;
    set_csrfPromise this d ;;;
    c' <- get_client this ;;
    ret (csrfPromise c')).

Definition init (this : ref) (force : option bool) : M ref :=
  let force := default false force in
  auth <- isAuthenticated this ;;
  if auth && negb force
  then c <- get_client this ;; ret (csrfPromise c)
  else getCSRFToken this.

Definition get (this : ref) (r : RequestConfig) : M ref :=
  async (p <- ensureAuth this ;; promise_then p (KGet this r)).

Definition post (this : ref) (r : RequestConfig) : M ref :=
  async (p <- ensureAuth this ;; promise_then p (KPost this r)).

(** The closure of [get]: [() => callApi({...})]. *)
Definition get_callback (this : ref) (r : RequestConfig) : M ref :=
  c <- get_client this ;;
  hs <- get_object (headers c) ;;
  rh <- spread (req_headers r) ;;
  callApi
    {| api_body := req_body r;
       api_credentials := or_str (req_credentials r) (credentials c);
       api_headers := rh ∪ hs;
       api_method := GET;
       api_mode := or_else_str (req_mode r) (mode c);
       api_parseMethod := req_parseMethod r;
       api_postPayload := JUndefined;
       api_signal := req_signal r;
       api_stringify := None;
       api_timeout := or_num (req_timeout r) (timeout c);
       api_url := getUrl c {| url_host := req_host r;
                              url_endpoint := req_endpoint r;
                              url_url := req_url r |} |}.

(** The closure of [post]. *)
Definition post_callback (this : ref) (r : RequestConfig) : M ref :=
  c <- get_client this ;;
  hs <- get_object (headers c) ;;
  rh <- spread (req_headers r) ;;
  callApi
    {| api_body := JUndefined;
       api_credentials := or_str (req_credentials r) (credentials c);
       api_headers := rh ∪ hs;
       api_method := POST;
       api_mode := or_else_str (req_mode r) (mode c);
       api_parseMethod := req_parseMethod r;
       api_postPayload := req_postPayload r;
       api_signal := req_signal r;
       api_stringify := req_stringify r;
       api_timeout := or_num (req_timeout r) (timeout c);
       api_url := getUrl c {| url_host := req_host r;
                              url_endpoint := req_endpoint r;
                              url_url := req_url r |} |}.

Definition lift_prop (r : jsval + jsval) : M jsval :=
  match r with inl v => ret v | inr e => throw e end.

(** [response.json] *)
Definition response_json (v : pvalue) : M jsval :=
  match v with
  | VResp r => ret (json r)
  | VJs x => lift_prop (get_prop x "json")
  end.

(** The closure of [getCSRFToken]: [response => {...}]. *)
Definition token_callback (this : ref) (response : pvalue) : M ref :=
  rj <- response_json response ;;
  (if String.eqb (typeof rj) "object" then
     tok <- lift_prop (get_prop rj "csrf_token") ;;
     set_csrfToken this tok ;;;
     c <- get_client this ;;
     match csrfToken c with
     | JStr t =>
         hs <- get_object (headers c) ;;
         h' <- new_object (<["X-CSRFToken" := t]> hs) ;;
         set_headers this h'
     | _ => ret tt
     end
   else ret tt) ;;;
  auth <- isAuthenticated this ;;
  if negb auth
  then Promise_reject (error_payload "Failed to fetch CSRF token")
  else c <- get_client this ;; Promise_resolve (VJs (csrfToken c)).

Definition run_handler (h : handler) (v : pvalue) : M ref :=
  match h with
  | KGet this r => get_callback this r
  | KPost this r => post_callback this r
  | KToken this => token_callback this v
  end.

(** ** The event loop *)

(** One microtask.  The handlers of the class are all fulfilment handlers: a
    rejection passes through [then] to the derived promise. *)
Definition run_job (j : job) : M unit :=
  match j with
  | JReact (RThen h d) (Fulfilled v) =>
      try_catch (p <- run_handler h v ;; resolve_with d p)
                (fun e => settle d (Rejected e))
  | JReact (RThen h d) (Rejected e) => settle d (Rejected e)
  | JReact (RForward d) o => settle d o
  | JAdopt d p => add_reaction p (RForward d)
  end.

(** Runs the first job of the queue, if any. *)
Definition tick (s : state) : state :=
  match jobs s with
  | [] => s
  | j :: q =>
      match run_job j (with_jobs (fun _ => q) s) with
      | Ok _ s' | Exn _ s' => s'
      | Stuck => s
      end
  end.

Fixpoint ticks (n : nat) (s : state) : state :=
  match n with
  | O => s
  | S n' => ticks n' (tick s)
  end.

(** The environment settles the promise of a transport call: with a response
    ([inl]) or with an error ([inr]). *)
Definition deliver (t : ref) (o : SupersetClientResponse + jsval) : M unit :=
  pr <- get_promise t ;;
  if of_transport pr
  then settle t (match o with
                 | inl r => Fulfilled (VResp r)
                 | inr e => Rejected e
                 end)
  else ret tt.

(** The state after a computation, whatever it returned. *)
Definition exec {A} (m : M A) (s : state) : state :=
  match m s with
  | Ok _ s' | Exn _ s' => s'
  | Stuck => s
  end.

(** ** The registry [PublicAPI] *)

Definition not_configured : jsval :=
  JErr "Error"
    "You must call SupersetClient.configure(...) before calling other methods".

Definition hasInstance (maybeClient : option ref) : M bool :=
  match maybeClient with
  | None => throw not_configured
  | Some _ => ret true
  end.

(** [hasInstance(singletonClient) && singletonClient.m(...)]: [hasInstance]
    returns [true] or throws, so the right operand is what is returned. *)
Definition on_instance {A} (m : ref -> M A) : M A :=
  sc <- read (fun s => Some (singletonClient s)) ;;
  ok <- hasInstance sc ;;
  match sc with
  | Some this => m this
  | None => throw (JErr "TypeError" "singletonClient is undefined")
  end.

Module PublicAPI.

Definition configure (config : option ClientConfig) : M ref :=
  this <- constructor config ;;
  modify (with_singleton (Some this)) ;;;
  ret this.

Definition get (request : RequestConfig) : M ref :=
  on_instance (fun this => get this request).

(* [reAuthenticate] comes before [init] here: its body calls the [init]
   of the class. *)
Definition reAuthenticate : M ref :=
  on_instance (fun this => init this (Some true)).

Definition init (force : option bool) : M ref :=
  on_instance (fun this => init this force).

Definition isAuthenticated : M bool :=
  on_instance (fun this => isAuthenticated this).

Definition post (request : RequestConfig) : M ref :=
  on_instance (fun this => post this request).

Definition reset : M unit :=
  modify (with_singleton None).

End PublicAPI.

Definition promise_status (s : state) (p : ref) : option pstatus :=
  status <$> promises s !! p.

Definition request (m : Method) : ref -> RequestConfig -> M ref :=
  match m with GET => get | POST => post end.


Definition handler_of (m : Method) (this : ref) (r : RequestConfig) : handler :=
  match m with GET => KGet this r | POST => KPost this r end.

(** ** Notions of the specification *)

(** A token is a defined value when it is neither [undefined] nor [null]. *)
Definition defined (v : jsval) : Prop := v <> JUndefined /\ v <> JNull.

(** Stripping exactly one leading slash, and exactly one trailing slash, when
    there is one. *)
Definition strip_leading_slash (s : string) : string :=
  match s with
  | String "/" rest => rest
  | _ => s
  end.

Fixpoint strip_trailing_slash (s : string) : string :=
  match s with
  | "" => ""
  | String c "" => if Ascii.eqb c "/" then "" else s
  | String c rest => String c (strip_trailing_slash rest)
  end.

(** Configurations and requests used as concrete inputs. *)
Definition config_with_token (t : option CsrfToken) : ClientConfig :=
  {| cfg_credentials := None; cfg_csrfToken := t; cfg_headers := None;
     cfg_host := None; cfg_protocol := None; cfg_mode := None;
     cfg_timeout := None |}.

Definition request_to (endpoint : string) : RequestConfig :=
  {| req_body := JUndefined; req_credentials := None;
     req_endpoint := Some endpoint; req_headers := None; req_host := None;
     req_mode := None; req_parseMethod := None; req_postPayload := JUndefined;
     req_signal := None; req_stringify := None; req_timeout := None;
     req_url := None |}.

(** The state after [new SupersetClient({csrfToken: t})], or after
    [new SupersetClient()], in the initial state. *)
Definition fresh_client (t : option CsrfToken) : state :=
  exec (constructor (Some (config_with_token t))) initial.

(** The transport calls of a trace, in order. *)
Definition api_calls (tr : list event) : list ApiCall :=
  omap (fun ev => match ev with EvCallApi a _ => Some a | _ => None end) tr.

(** The argument of [getUrl] for the login page. *)
Definition login_args : UrlArgs :=
  {| url_host := None; url_endpoint := Some "/login"; url_url := None |}.

(** The header reference of a config is either absent or points to an
    object of the store. *)
Definition config_ok (s : state) (config : option ClientConfig) : Prop :=
  match cfg_headers (default empty_config config) with
  | Some r => is_Some (objects s !! r)
  | None => True
  end.

(** The contents that [{...headers}] copies from a config. *)
Definition config_headers (s : state) (config : option ClientConfig) : Headers :=
  match cfg_headers (default empty_config config) with
  | Some r => default ∅ (objects s !! r)
  | None => ∅
  end.

(** An assignment [o[k] = v] made by the caller on one of its header
    objects. *)
Definition mutate_object (r : ref) (k v : string) : M unit :=
  h <- get_object r ;;
  modify (with_objects (fun os => <[r := <[k := v]> h]> os)).

(** A state in which the caller owns one header object, and a config that
    refers to it. *)
Definition caller_state : state :=
  exec (new_object {["Accept" := "application/json"]}) initial.

Definition config_with_headers (r : ref) : ClientConfig :=
  {| cfg_credentials := None; cfg_csrfToken := Some "abc";
     cfg_headers := Some r; cfg_host := Some "example.com/";
     cfg_protocol := Some Https; cfg_mode := None; cfg_timeout := Some 1000 |}.

(** The request that fetches the token, for a client with fields [c] whose
    header object holds [hs]. *)
Definition token_call (c : SupersetClient) (hs : Headers) : ApiCall :=
  {| api_body := JUndefined;
     api_credentials := credentials c;
     api_headers := hs;
     api_method := GET;
     api_mode := mode c;
     api_parseMethod := None;
     api_postPayload := JUndefined;
     api_signal := None;
     api_stringify := None;
     api_timeout := timeout c;
     api_url := getUrl c {| url_host := None;
                            url_endpoint := Some token_endpoint;
                            url_url := None |} |}.

Definition pending (rs : list reaction) : promise :=
  {| of_transport := false; status := Pending rs |}.

(** Only the callbacks of [get] and [post] call the transport. *)
Definition is_request_job (j : job) : bool :=
  match j with
  | JReact (RThen (KGet _ _) _) (Fulfilled _)
  | JReact (RThen (KPost _ _) _) (Fulfilled _) => true
  | _ => false
  end.


(** The events that a computation has added to the trace. *)
Definition new_events (s s' : state) : list event :=
  drop (length (trace s)) (trace s').



(** The request that [get] or [post] sends for [r], for a client with fields
    [c] whose header object holds [hs], when [r] brings no headers. *)
Definition request_call (m : Method) (c : SupersetClient) (hs : Headers)
    (r : RequestConfig) : ApiCall :=
  {| api_body := match m with GET => req_body r | POST => JUndefined end;
     api_credentials := or_str (req_credentials r) (credentials c);
     api_headers := ∅ ∪ hs;
     api_method := m;
     api_mode := or_else_str (req_mode r) (mode c);
     api_parseMethod := req_parseMethod r;
     api_postPayload :=
       match m with GET => JUndefined | POST => req_postPayload r end;
     api_signal := req_signal r;
     api_stringify := match m with GET => None | POST => req_stringify r end;
     api_timeout := or_num (req_timeout r) (timeout c);
     api_url := getUrl c {| url_host := req_host r;
                            url_endpoint := req_endpoint r;
                            url_url := req_url r |} |}.

(** The token that a response carries: [response.json.csrf_token] when
    [response.json] is an object ([inr] when reading it throws), and nothing
    otherwise. *)
Definition fetched_token (resp : SupersetClientResponse) : jsval + jsval :=
  if String.eqb (typeof (json resp)) "object"
  then get_prop (json resp) "csrf_token"
  else inl JUndefined.

Definition fetch_failed : jsval := error_payload "Failed to fetch CSRF token".

Definition network_error : jsval := JErr "TypeError" "Failed to fetch".

(** ** Executions *)

(** What the program around the client and the environment can do: call a
    method of an instance or of the registry, create a header object, let
    the next microtask run, deliver the outcome of a transport call. *)
Inductive action : Type :=
  | ANew (config : option ClientConfig)
  | AInit (this : ref) (force : option bool)
  | AIsAuthenticated (this : ref)
  | AGet (this : ref) (r : RequestConfig)
  | APost (this : ref) (r : RequestConfig)
  | AEnsureAuth (this : ref)
  | AGetCSRFToken (this : ref)
  | AConfigure (config : option ClientConfig)
  | ARegistryGet (r : RequestConfig)
  | ARegistryPost (r : RequestConfig)
  | ARegistryInit (force : option bool)
  | ARegistryIsAuthenticated
  | AReAuthenticate
  | AReset
  | ANewObject (h : Headers)
  | ATick
  | ADeliver (t : ref) (o : SupersetClientResponse + jsval).

Definition ignore {A} (m : M A) : M unit := m ;;; ret tt.

(** The first job of the queue. *)
Definition run_next : M unit :=
  fun s => match jobs s with
           | [] => Stuck
           | j :: q => run_job j (with_jobs (fun _ => q) s)
           end.

Definition perform (a : action) : M unit :=
  match a with
  | ANew config => ignore (constructor config)
  | AInit this force => ignore (init this force)
  | AIsAuthenticated this => ignore (isAuthenticated this)
  | AGet this r => ignore (get this r)
  | APost this r => ignore (post this r)
  | AEnsureAuth this => ignore (ensureAuth this)
  | AGetCSRFToken this => ignore (getCSRFToken this)
  | AConfigure config => ignore (PublicAPI.configure config)
  | ARegistryGet r => ignore (PublicAPI.get r)
  | ARegistryPost r => ignore (PublicAPI.post r)
  | ARegistryInit force => ignore (PublicAPI.init force)
  | ARegistryIsAuthenticated => ignore PublicAPI.isAuthenticated
  | AReAuthenticate => ignore PublicAPI.reAuthenticate
  | AReset => PublicAPI.reset
  | ANewObject h => ignore (new_object h)
  | ATick => run_next
  | ADeliver t o => deliver t o
  end.

Definition outcome_state {A} (r : result A) : option state :=
  match r with
  | Ok _ s | Exn _ s => Some s
  | Stuck => None
  end.

(** One step of an execution: an action, or an assignment by the caller to
    a header object that is not the header object of a client. *)
Inductive step : state -> state -> Prop :=
  | step_perform a s s' :
      outcome_state (perform a s) = Some s' -> step s s'
  | step_mutate r k v s s' :
      (forall this c, clients s !! this = Some c -> headers c <> r) ->
      mutate_object r k v s = Ok tt s' ->
      step s s'.

Definition reachable (s : state) : Prop := rtc step initial s.

(** The state after a list of actions. *)
Fixpoint run (acts : list action) (s : state) : option state :=
  match acts with
  | [] => Some s
  | a :: acts' =>
      match outcome_state (perform a s) with
      | Some s' => run acts' s'
      | None => None
      end
  end.

(** The invariant of the client, as the specification words it: the pending
    promise exists, and whenever a token is known the [X-CSRFToken] header is
    that token. *)
Definition spec_client_ok (os : list Headers) (ps : list promise)
    (c : SupersetClient) : Prop :=
  is_Some (ps !! csrfPromise c) /\
  (defined (csrfToken c) ->
   exists h v, os !! headers c = Some h /\
               h !! "X-CSRFToken" = Some v /\ csrfToken c = JStr v).

Definition spec_invariant (s : state) : Prop :=
  forall this c, clients s !! this = Some c ->
                 spec_client_ok (objects s) (promises s) c.

(** The invariant that the code maintains: the pending promise exists, and
    whenever the token is a string the [X-CSRFToken] header is that
    string. *)
Definition client_ok (os : list Headers) (ps : list promise)
    (c : SupersetClient) : Prop :=
  is_Some (ps !! csrfPromise c) /\
  (forall t, csrfToken c = JStr t ->
   exists h, os !! headers c = Some h /\ h !! "X-CSRFToken" = Some t).

Definition invariant (s : state) : Prop :=
  forall this c, clients s !! this = Some c ->
                 client_ok (objects s) (promises s) c.

(** The invariant on the three stores. *)
Definition inv (cs : list SupersetClient) (os : list Headers)
    (ps : list promise) : Prop :=
  forall this c, cs !! this = Some c -> client_ok os ps c.

(** A response whose token is a number. *)
Definition numeric_token_response : SupersetClientResponse :=
  {| json := JObj [("csrf_token", JNum 5)]; text := None |}.

(** A run in which the token endpoint answers with a number: construction,
    token fetch, one microtask, the response, the microtask of the
    callback. *)
Definition numeric_token_run : list action :=
  [ANew None; AGetCSRFToken 0%nat; ATick;
   ADeliver 2%nat (inl numeric_token_response); ATick].

(** ** Further notions *)

(** A reaction [r] waits on the pending promise [p]; the promise [p] has
    settled and the job of [r] is in the queue with its outcome. *)
Definition waiting (s : state) (p : ref) (r : reaction) : Prop :=
  exists b rs,
    promises s !! p = Some {| of_transport := b; status := Pending rs |} /\
    r ∈ rs.

Definition released (s : state) (p : ref) (r : reaction) : Prop :=
  exists b x,
    promises s !! p = Some {| of_transport := b; status := Settled x |} /\
    JReact r x ∈ jobs s.

(** What the header object of a request holds in a state ([{}] when the
    request brings none). *)
Definition request_headers (s : state) (r : RequestConfig) : option Headers :=
  match req_headers r with
  | Some x => objects s !! x
  | None => Some ∅
  end.

(** The argument of [callApi] in the callbacks of [get] and [post], for a
    client with fields [c]: [hs] is what the header object of the client
    holds and [rh] what the header object of the request holds. *)
Definition sent_call (m : Method) (c : SupersetClient) (hs rh : Headers)
    (r : RequestConfig) : ApiCall :=
  {| api_body := match m with GET => req_body r | POST => JUndefined end;
     api_credentials := or_str (req_credentials r) (credentials c);
     api_headers := rh ∪ hs;
     api_method := m;
     api_mode := or_else_str (req_mode r) (mode c);
     api_parseMethod := req_parseMethod r;
     api_postPayload :=
       match m with GET => JUndefined | POST => req_postPayload r end;
     api_signal := req_signal r;
     api_stringify := match m with GET => None | POST => req_stringify r end;
     api_timeout := or_num (req_timeout r) (timeout c);
     api_url := getUrl c {| url_host := req_host r;
                            url_endpoint := req_endpoint r;
                            url_url := req_url r |} |}.

(** The outcome of a transport call, as the state of its promise. *)
Definition transport_outcome (o : SupersetClientResponse + jsval) : settled :=
  match o with
  | inl resp => Fulfilled (VResp resp)
  | inr e => Rejected e
  end.

(** A request that brings the header object [x]. *)
Definition request_with_headers (endpoint : string) (x : ref) : RequestConfig :=
  {| req_body := JUndefined; req_credentials := None;
     req_endpoint := Some endpoint; req_headers := Some x; req_host := None;
     req_mode := None; req_parseMethod := None; req_postPayload := JUndefined;
     req_signal := None; req_stringify := None; req_timeout := Some 0;
     req_url := None |}.

(** The state after [new SupersetClient({csrfToken: 'abc'})] in a state
    where the caller owns the header object [0]. *)
Definition client_beside_caller : state :=
  exec (constructor (Some (config_with_token (Some "abc")))) caller_state.

(** The fields of the client of [fresh_client (Some "abc")] and of
    [client_beside_caller]. *)
Definition abc_client (p h : ref) : SupersetClient :=
  {| credentials := None; csrfToken := JStr "abc"; csrfPromise := p;
     protocol := Http; host := "localhost"; headers := h;
     mode := "same-origin"; timeout := None |}.

(** The fields of a client that come from its configuration. *)
Definition same_config (c c' : SupersetClient) : Prop :=
  protocol c' = protocol c /\ host c' = host c /\ mode c' = mode c /\
  timeout c' = timeout c /\ credentials c' = credentials c.

(** The actions that can reach the transport: the entry points that may
    fetch the token, and the microtask of a request callback. *)
Definition may_call_transport (a : action) (s : state) : bool :=
  match a with
  | AInit _ _ | AGetCSRFToken _ | ARegistryInit _ | AReAuthenticate => true
  | ATick => match jobs s with j :: _ => is_request_job j | [] => false end
  | _ => false
  end.

(** The fields of the client of [fresh_client None]. *)
Definition no_token_client (p h : ref) : SupersetClient :=
  {| credentials := None; csrfToken := JUndefined; csrfPromise := p;
     protocol := Http; host := "localhost"; headers := h;
     mode := "same-origin"; timeout := None |}.

(** A response of the token endpoint that carries the token [tok]. *)
Definition token_response (tok : string) : SupersetClientResponse :=
  {| json := JObj [("csrf_token", JStr tok)]; text := None |}.

(** What a token fetch is rejected with, if it is: the error of the
    transport, what the callback throws, or the payload for a missing
    token. *)
Definition fetch_rejection (o : SupersetClientResponse + jsval) : option jsval :=
  match o with
  | inr e => Some e
  | inl resp =>
      match fetched_token resp with
      | inr thrown => Some thrown
      | inl tok =>
          if is_null tok || is_undefined tok then Some fetch_failed else None
      end
  end.

(** The entry points that may fetch the token, and the microtask that runs
    the callback of a fetch of the client [this]. *)
Definition may_fetch (a : action) : bool :=
  match a with
  | AInit _ _ | AGetCSRFToken _ | ARegistryInit _ | AReAuthenticate => true
  | _ => false
  end.

Definition is_token_tick (this : ref) (a : action) (s : state) : bool :=
  match a, jobs s with
  | ATick, JReact (RThen (KToken t) _) (Fulfilled _) :: _ =>
      bool_decide (t = this)
  | _, _ => false
  end.

(** No dangling reference: the registry holds an existing client, and the
    header object and the pending promise of every client exist. *)
Definition well_formed (s : state) : Prop :=
  (forall this, singletonClient s = Some this ->
                (this < length (clients s))%nat) /\
  (forall this c, clients s !! this = Some c ->
                  (headers c < length (objects s))%nat /\
                  (csrfPromise c < length (promises s))%nat).

(** The entry points of the registry that need an instance. *)
Definition needs_instance (a : action) : bool :=
  match a with
  | ARegistryGet _ | ARegistryPost _ | ARegistryInit _
  | ARegistryIsAuthenticated | AReAuthenticate => true
  | _ => false
  end.

(** ** Values of the declared types *)

(** The token of a client is declared [CsrfToken | undefined], with
    [CsrfToken = string]; a [csrf_token] field of a response that is there
    is a string or [null]. *)
Definition typed_token (v : jsval) : bool :=
  match v with
  | JStr _ | JUndefined | JNull => true
  | _ => false
  end.

(** A response is typed when the token that the callback of the fetch reads
    from it is typed. *)
Definition typed_response (resp : SupersetClientResponse) : bool :=
  match fetched_token resp with
  | inl tok => typed_token tok
  | inr _ => true
  end.

Definition typed_value (v : pvalue) : bool :=
  match v with
  | VResp resp => typed_response resp
  | VJs x => typed_token x
  end.

(** The actions in which the environment respects the types: the responses
    it delivers are typed. *)
Definition typed_action (a : action) : bool :=
  match a with
  | ADeliver _ (inl resp) => typed_response resp
  | _ => true
  end.

Inductive typed_step : state -> state -> Prop :=
  | typed_perform a s s' :
      typed_action a = true ->
      outcome_state (perform a s) = Some s' -> typed_step s s'
  | typed_mutate r k v s s' :
      (forall this c, clients s !! this = Some c -> headers c <> r) ->
      mutate_object r k v s = Ok tt s' ->
      typed_step s s'.

Definition typed_reachable (s : state) : Prop := rtc typed_step initial s.

(** Every token and every value that a promise or a job carries is typed. *)
Definition typed_settled (o : settled) : Prop :=
  match o with
  | Fulfilled v => typed_value v = true
  | Rejected _ => True
  end.

Definition typed_promise (pr : promise) : Prop :=
  match status pr with
  | Settled o => typed_settled o
  | Pending _ => True
  end.

Definition typed_job (j : job) : Prop :=
  match j with
  | JReact _ o => typed_settled o
  | JAdopt _ _ => True
  end.

Definition typed_client (c : SupersetClient) : Prop :=
  typed_token (csrfToken c) = true.

Definition typed_state (s : state) : Prop :=
  Forall typed_client (clients s) /\
  Forall typed_promise (promises s) /\
  Forall typed_job (jobs s).

(** * Lemmas on the stores and symbolic execution *)

Section Stores.
Context {A : Type}.
Implicit Types (l : list A) (x y : A) (i : nat).

Lemma lookup_snoc_new l x i : i = length l -> (l ++ [x]) !! i = Some x.
Proof. intros ->. by rewrite list_lookup_middle. Qed.

Lemma lookup_snoc_old l x i y : l !! i = Some y -> (l ++ [x]) !! i = Some y.
Proof. intros H. by apply lookup_app_l_Some. Qed.

Lemma insert_snoc_old l x i y z :
  l !! i = Some z -> <[i := y]> (l ++ [x]) = <[i := y]> l ++ [x].
Proof. intros H. apply insert_app_l. by eapply lookup_lt_Some. Qed.

Lemma insert_snoc_new l x y i :
  i = length l -> <[i := y]> (l ++ [x]) = l ++ [y].
Proof.
  intros ->. rewrite insert_app_r_alt by lia. by rewrite Nat.sub_diag.
Qed.

Lemma lookup_insert_same l i y z :
  l !! i = Some z -> <[i := y]> l !! i = Some y.
Proof. intros H. apply list_lookup_insert_eq. by eapply lookup_lt_Some. Qed.
End Stores.

(** Symbolic execution of the embedding: unfold the operations, reduce, and
    resolve the store lookups that block the reduction. *)
Ltac lookup_bounds :=
  repeat match goal with
         | H : ?l !! ?i = Some _ |- _ =>
             lazymatch goal with
             | _ : (i < length l)%nat |- _ => fail
             | _ => pose proof (lookup_lt_Some _ _ _ H)
             end
         end.

Ltac store_neq :=
  lookup_bounds; rewrite ?length_app, ?length_insert; simpl; lia.

Ltac solve_lookup :=
  first
    [ eassumption
    | apply lookup_snoc_new; store_neq
    | apply lookup_snoc_old; solve_lookup
    | eapply lookup_insert_same; solve_lookup
    | rewrite list_lookup_insert_ne by store_neq; solve_lookup ].

Ltac lk :=
  match goal with
  | |- context [ @lookup ?K ?T (list ?T) ?I ?i ?l ] =>
      let H := fresh "Hlk" in
      let v := fresh "v" in
      evar (v : T);
      assert (H : @lookup K T (list T) I i l = Some v)
        by (subst v; solve_lookup);
      subst v; rewrite H; clear H
  end.

Ltac js_unfold :=
  unfold perform, ignore, run_next, PublicAPI.configure, PublicAPI.get,
    PublicAPI.post, PublicAPI.init, PublicAPI.isAuthenticated,
    PublicAPI.reAuthenticate, PublicAPI.reset, on_instance, hasInstance, mutate_object, request, init, get, post,
    getCSRFToken, constructor, run_job, run_handler, get_callback,
    post_callback, token_callback, response_json, lift_prop, deliver,
    isAuthenticated, ensureAuth, exec, async, callApi, promise_then,
    resolve_with, add_reaction, settle, Promise_resolve, Promise_reject,
    set_status, get_promise, new_promise, set_headers, set_csrfPromise,
    set_csrfToken, get_client, new_client, spread, get_object, new_object,
    enqueue, emit, modify, read, try_catch, throw, bind, ret, with_clients,
    with_objects, with_promises, with_jobs, with_trace, with_singleton.

#[local] Arguments getUrl : simpl never.
#[local] Arguments no_token_message : simpl never.
#[local] Arguments error_payload : simpl never.
#[local] Arguments new_events : simpl never.
#[local] Arguments token_call : simpl never.
#[local] Arguments request_call : simpl never.
#[local] Arguments or_str : simpl never.
#[local] Arguments or_num : simpl never.
#[local] Arguments or_else_str : simpl never.

Ltac rw_match :=
  match goal with
  | H : ?x = _ |- context [match ?x with _ => _ end] => rewrite H
  end.

Ltac js_run := js_unfold; cbn; repeat (first [lk | rw_match]; cbn).

Ltac evaluated :=
  lazymatch goal with
  | |- context [match _ with _ => _ end] => fail "stuck"
  | _ => idtac
  end.

Ltac js_case :=
  match goal with
  | |- context [match ?x with _ => _ end] =>
      lazymatch x with
      | context [match _ with _ => _ end] => fail
      | _ => destruct x eqn:?; cbn
      end
  end.

Ltac norm_insert :=
  repeat first
    [ rewrite insert_snoc_new by store_neq
    | erewrite insert_snoc_old by solve_lookup
    | rewrite list_insert_insert_eq ].

Ltac norm_len :=
  rewrite ?length_app, ?length_insert; cbn [length];
  rewrite ?Nat.add_1_r, <- ?(app_assoc (A := event)),
    <- ?(app_assoc (A := job));
  cbn [app].

Ltac eval_tick :=
  match goal with
  | |- context [tick ?s] =>
      lazymatch s with
      | context [tick _] => fail
      | context [exec _ _] => fail
      | _ =>
          let H := fresh "Htick" in
          eassert (H : tick s = _)
            by (unfold tick; js_run; norm_insert; norm_len; evaluated;
                reflexivity);
          rewrite H; clear H
      end
  | |- context [exec ?m ?s] =>
      lazymatch s with
      | context [tick _] => fail
      | context [exec _ _] => fail
      | _ =>
          let H := fresh "Hexec" in
          eassert (H : exec m s = _)
            by (js_run; norm_insert; norm_len; evaluated; reflexivity);
          rewrite H; clear H
      end
  end.


(** * Runs of the operations *)



Lemma spread_config_ok s config :
  config_ok s config ->
  spread (cfg_headers (default empty_config config)) s
    = Ok (config_headers s config) s.
Proof.
  unfold config_ok, config_headers, spread, get_object, read. intros H.
  destruct (cfg_headers _) as [r|]; [|done].
  destruct H as [h Hh]. by rewrite Hh.
Qed.

Lemma constructor_run s config h0 :
  let cfg := default empty_config config in
  spread (cfg_headers cfg) s = Ok h0 s ->
  let this := length (clients s) in
  let c0 := {| credentials := cfg_credentials cfg;
               csrfToken := match cfg_csrfToken cfg with
                            | Some t => JStr t
                            | None => JUndefined
                            end;
               csrfPromise := length (promises s);
               protocol := default Http (cfg_protocol cfg);
               host := default "localhost" (cfg_host cfg);
               headers := length (objects s);
               mode := default "same-origin" (cfg_mode cfg);
               timeout := cfg_timeout cfg |} in
  let rejected :=
    {| of_transport := false;
       status := Settled (Rejected (error_payload
                   (no_token_message (getUrl c0 login_args)))) |} in
  constructor config s =
    Ok this
      match cfg_csrfToken cfg with
      | None =>
          {| clients := clients s ++ [c0];
             objects := objects s ++ [h0];
             promises := promises s ++ [rejected];
             jobs := jobs s;
             trace := trace s ++ [EvSetCsrfToken this JUndefined;
                                  EvSetCsrfPromise this (length (promises s))];
             singletonClient := singletonClient s |}
      | Some t =>
          {| clients := clients s ++
               [upd_csrfPromise (S (length (promises s)))
                 (upd_headers (S (length (objects s))) c0)];
             objects := (objects s ++ [h0]) ++ [<["X-CSRFToken" := t]> h0];
             promises := (promises s ++ [rejected]) ++
               [{| of_transport := false;
                   status := Settled (Fulfilled (VJs (JStr t))) |}];
             jobs := jobs s;
             trace := trace s ++ [EvSetCsrfToken this (JStr t);
                                  EvSetCsrfPromise this (length (promises s));
                                  EvSetCsrfPromise this (S (length (promises s)))];
             singletonClient := singletonClient s |}
      end.
Proof.
  intros cfg Hh0 this c0 rejected.
  unfold constructor. fold cfg. unfold bind at 1. rewrite Hh0.
  destruct s as [cs os ps js tr sc]. subst this c0 rejected.
  unfold login_args.
  destruct (cfg_csrfToken cfg) as [t|]; js_run; norm_insert; norm_len;
    reflexivity.
Qed.

Lemma getCSRFToken_run s this c hs :
  clients s !! this = Some c ->
  objects s !! headers c = Some hs ->
  let o := length (promises s) in
  getCSRFToken this s =
    Ok o
      {| clients :=
           <[this := upd_csrfPromise (S (S o)) (upd_csrfToken JUndefined c)]>
             (clients s);
         objects := objects s;
         promises :=
           ((promises s ++ [pending []]) ++
            [{| of_transport := true;
                status := Pending [RThen (KToken this) (S (S o))] |}]) ++
           [pending []];
         jobs := jobs s ++ [JAdopt o (S (S o))];
         trace := trace s ++ [EvSetCsrfToken this JUndefined;
                              EvCallApi (token_call c hs) (S o);
                              EvSetCsrfPromise this (S (S o))];
         singletonClient := singletonClient s |}.
Proof.
  intros Hc Hh o. subst o.
  destruct s as [cs os ps js tr sc]; cbn in *.
  js_run. norm_insert. norm_len. reflexivity.
Qed.

Lemma run_job_no_call j s :
  is_request_job j = false ->
  api_calls (trace (exec (run_job j) s)) = api_calls (trace s).
Proof.
  intros Hj. destruct s as [cs os ps js tr sc].
  destruct j as [[[this r|this r|this] d|d] [v|e]|d p]; try discriminate Hj;
    js_unfold; cbn; repeat js_case;
    unfold api_calls; rewrite ?omap_app; cbn; rewrite ?app_nil_r; reflexivity.
Qed.

Lemma init_forced s this c :
  clients s !! this = Some c ->
  init this (Some true) s = getCSRFToken this s.
Proof.
  intros Hc. unfold init, isAuthenticated, get_client, read, bind, ret.
  rewrite Hc. cbn. by rewrite andb_false_r.
Qed.

Lemma on_instance_some {A} (m : ref -> M A) s this :
  singletonClient s = Some this -> on_instance m s = m this s.
Proof.
  intros Hs. unfold on_instance, hasInstance, read, bind, ret. by rewrite Hs.
Qed.

Lemma on_instance_none {A} (m : ref -> M A) s :
  singletonClient s = None -> on_instance m s = Exn not_configured s.
Proof.
  intros Hs. unfold on_instance, hasInstance, read, bind, throw.
  by rewrite Hs.
Qed.

Lemma new_events_app s s' evs :
  trace s' = trace s ++ evs -> new_events s s' = evs.
Proof.
  intros H. unfold new_events. rewrite H. by rewrite drop_app_length.
Qed.

(** * String lemmas for [getUrl] *)

Lemma substring_all s : substring 0 (String.length s) s = s.
Proof. induction s; simpl; congruence. Qed.

Lemma substring_none n s : substring n 0 s = "".
Proof. revert n; induction s; intros [|n]; simpl; auto. Qed.

Lemma slice_from_1 c s : slice (String c s) 1 None = s.
Proof.
  unfold slice. change (1 <? 0) with false. cbv iota.
  cbn [String.length].
  replace (Z.to_nat (Z.min 1 _)) with 1%nat by lia.
  replace (Z.to_nat (_ - _)) with (String.length s) by lia.
  simpl. apply substring_all.
Qed.

Lemma slice_last s :
  slice s (-1) None = substring (String.length s - 1) 1 s.
Proof.
  unfold slice. change (-1 <? 0) with true. cbv iota.
  destruct s as [|c s]; [reflexivity|].
  cbn [String.length].
  f_equal; lia.
Qed.

Lemma slice_init s :
  slice s 0 (Some (-1)) = substring 0 (String.length s - 1) s.
Proof.
  unfold slice. change (-1 <? 0) with true. change (0 <? 0) with false.
  cbv iota.
  f_equal; lia.
Qed.

Lemma clean_host_strip s :
  (if String.eqb (slice s (-1) None) "/" then slice s 0 (Some (-1)) else s)
  = strip_trailing_slash s.
Proof.
  rewrite slice_last, slice_init.
  induction s as [|c s IH]; [reflexivity|].
  destruct s as [|c' s].
  - simpl. destruct (Ascii.eqb_spec c "/") as [->|Hne]; simpl.
    + reflexivity.
    + destruct (String.eqb_spec (String c "") "/") as [E|E]; [|reflexivity].
      congruence.
  - cbn [String.length strip_trailing_slash] in *.
    replace (S (S (String.length s)) - 1)%nat with (S (String.length s)) by lia.
    replace (S (String.length s) - 1)%nat with (String.length s) in IH by lia.
    cbn [substring]. cbn [substring] in IH.
    destruct (String.eqb _ "/"); rewrite <- IH; reflexivity.
Qed.

Lemma endpoint_strip s :
  (if decide (String.get 0 s = Some "/"%char) then slice s 1 None else s)
  = strip_leading_slash s.
Proof.
  destruct s as [|c s]; [reflexivity|].
  cbn [String.get]. case_decide as H.
  - injection H as ->. apply slice_from_1.
  - unfold strip_leading_slash.
    destruct c as [[] [] [] [] [] [] [] []]; try reflexivity. congruence.
Qed.

Lemma strip_trailing_slash_snoc s : strip_trailing_slash (s +:+ "/") = s.
Proof.
  induction s as [|c s IH]; [reflexivity|].
  destruct s as [|c' s]; [reflexivity|].
  change (String c (String c' s) +:+ "/")
    with (String c (String c' s +:+ "/")).
  change (String c' s +:+ "/") with (String c' (s +:+ "/")) at 1.
  cbn [strip_trailing_slash].
  change (String c' (s +:+ "/")) with (String c' s +:+ "/").
  f_equal. exact IH.
Qed.

Lemma getUrl_eq this a :
  getUrl this a =
    match url_url a with
    | Some url => url
    | None =>
        protocol_string (protocol this) +:+ "//" +:+
        strip_trailing_slash (or_else_str (url_host a) (host this)) +:+
        "/" +:+ strip_leading_slash (default "" (url_endpoint a))
    end.
Proof.
  unfold getUrl. destruct (url_url a); [reflexivity|].
  by rewrite clean_host_strip, endpoint_strip.
Qed.

(** * Preservation of the invariant *)

Section Invariant.
Implicit Types (cs : list SupersetClient) (os : list Headers)
  (ps : list promise) (c : SupersetClient).

Lemma client_ok_promises os ps ps' c :
  (length ps <= length ps')%nat -> client_ok os ps c -> client_ok os ps' c.
Proof.
  intros Hle [Hp Hh]. split; [|exact Hh].
  apply lookup_lt_is_Some. apply lookup_lt_is_Some in Hp. lia.
Qed.

Lemma client_ok_objects os h ps c :
  client_ok os ps c -> client_ok (os ++ [h]) ps c.
Proof.
  intros [Hp Hh]. split; [exact Hp|].
  intros t Ht. destruct (Hh t Ht) as (h' & H1 & H2).
  exists h'. split; [by apply lookup_snoc_old|exact H2].
Qed.

Lemma inv_promises cs os ps ps' :
  (length ps <= length ps')%nat -> inv cs os ps -> inv cs os ps'.
Proof. intros Hle H this c Hc. eapply client_ok_promises; eauto. Qed.

Lemma inv_objects cs os h ps : inv cs os ps -> inv cs (os ++ [h]) ps.
Proof. intros H this c Hc. apply client_ok_objects; eauto. Qed.

Lemma inv_insert cs os ps this c :
  client_ok os ps c -> inv cs os ps -> inv (<[this := c]> cs) os ps.
Proof.
  intros Hc H this' c' Hl.
  apply list_lookup_insert_Some in Hl as [(-> & -> & _)|[_ Hl]]; eauto.
Qed.

Lemma inv_snoc cs os ps c :
  client_ok os ps c -> inv cs os ps -> inv (cs ++ [c]) os ps.
Proof.
  intros Hc H this' c' Hl.
  apply lookup_app_Some in Hl as [Hl|[_ Hl]]; eauto.
  apply list_lookup_singleton_Some in Hl as [_ <-]. exact Hc.
Qed.

Lemma inv_mutate cs os ps r h :
  (forall this c, cs !! this = Some c -> headers c <> r) ->
  inv cs os ps -> inv cs (<[r := h]> os) ps.
Proof.
  intros Hr H this c Hc. destruct (H this c Hc) as [Hp Hh].
  split; [exact Hp|]. intros t Ht. destruct (Hh t Ht) as (h' & H1 & H2).
  exists h'. split; [|exact H2].
  rewrite list_lookup_insert_ne; [exact H1|]. 
  intros ->. by eapply Hr.
Qed.
End Invariant.

Ltac js_steps := repeat first [lk; cbn | rw_match; cbn | js_case].

Ltac len_tac :=
  lookup_bounds; cbn;
  repeat first [rewrite length_app | rewrite length_insert];
  cbn [length]; lia.

Ltac client_ok_tac Hinv :=
  split;
  [ apply lookup_lt_is_Some; len_tac
  | let t := fresh "t" in
    let Ht := fresh "Ht" in
    intros t Ht; cbn in Ht;
    first
      [ discriminate Ht
      | injection Ht as <-; eexists; split;
        [cbn; solve_lookup | apply lookup_insert_eq]
      | match goal with
        | H : forall t, _ = JStr t -> _ |- _ =>
            let h := fresh "h" in
            let H1 := fresh "H1" in
            let H2 := fresh "H2" in
            destruct (H t Ht) as (h & H1 & H2); exists h;
            split; [cbn; solve_lookup | exact H2]
        end ] ].

Ltac inv_tac Hinv :=
  repeat match goal with
         | E : ?cs !! ?i = Some ?c |- _ =>
             lazymatch type of c with
             | SupersetClient =>
                 lazymatch goal with
                 | _ : is_Some (_ !! csrfPromise c) |- _ => fail
                 | _ =>
                     let Hp := fresh "Hp" in
                     let Hh := fresh "Hh" in
                     destruct (Hinv _ _ E) as [Hp Hh];
                     pose proof (proj1 (lookup_lt_is_Some _ _) Hp)
                 end
             end
         end;
  match goal with
  | |- forall this c, ?cs !! this = Some c -> client_ok ?os ?ps c =>
      change (inv cs os ps)
  end;
  norm_insert;
  repeat first
    [ exact Hinv
    | apply inv_insert; [client_ok_tac Hinv|]
    | apply inv_snoc; [client_ok_tac Hinv|]
    | apply inv_objects
    | eapply inv_promises; [|exact Hinv]; len_tac ].

Lemma perform_preserves a s :
  invariant s ->
  match perform a s with
  | Ok _ s' | Exn _ s' => invariant s'
  | Stuck => True
  end.
Proof.
  destruct s as [cs os ps js tr sc]. unfold invariant. cbn.
  fold (inv cs os ps). intros Hinv.
  destruct a; js_unfold; cbn; js_steps; try exact I;
    try exact Hinv; inv_tac Hinv.
Qed.

Lemma step_preserves s s' : step s s' -> invariant s -> invariant s'.
Proof.
  intros [a s1 s2 H|r k v s1 s2 Hr H] Hinv.
  - pose proof (perform_preserves a s1 Hinv) as Hp.
    destruct (perform a s1); cbn in H; try discriminate; by injection H as <-.
  - destruct s1 as [cs os ps js tr sc]. unfold invariant in *. cbn in *.
    revert H. js_unfold. cbn.
    destruct (os !! r) as [h|]; cbn; [|discriminate].
    intros [= <-]. cbn. by apply inv_mutate.
Qed.

Lemma run_reachable acts s s' :
  reachable s -> run acts s = Some s' -> reachable s'.
Proof.
  revert s. induction acts as [|a acts IH]; intros s Hs; cbn.
  - by intros [= <-].
  - destruct (outcome_state (perform a s)) as [s1|] eqn:E; [|discriminate].
    apply IH. eapply rtc_r; [exact Hs|]. by eapply step_perform.
Qed.

(** ** Reactions that wait on a promise *)

Ltac find_p p :=
  repeat first
    [ rewrite (lookup_app_l _ _ p) by len_tac
    | rewrite (list_lookup_insert_ne _ _ p) by len_tac
    | match goal with
      | |- context [<[?i := _]> _ !! p] =>
          let Heq := fresh "Heq" in
          destruct (decide (i = p)) as [Heq|?];
          [rewrite ?Heq in *; rewrite list_lookup_insert_eq by len_tac
          |rewrite list_lookup_insert_ne by assumption]
      end ].

Ltac same_lookups :=
  repeat match goal with
         | E : (_ ++ _) !! _ = Some _ |- _ =>
             rewrite lookup_app_l in E by len_tac
         end;
  repeat match goal with
         | E1 : _ !! _ = Some ?x, E2 : _ !! _ = Some ?y |- _ =>
             lazymatch x with y => fail | _ => idtac end;
             let E := fresh "E" in
             assert (E : Some x = Some y) by exact (eq_trans (eq_sym E1) E2);
             clear E2; injection E as E; subst
         end;
  cbn in *; simplify_eq.

Lemma in_reaction_jobs (r : reaction) (x : settled) (rs : list reaction) :
  r ∈ rs -> JReact r x ∈ map (fun r0 => JReact r0 x) rs.
Proof.
  intros H. apply list_elem_of_In.
  apply (in_map (fun r0 => JReact r0 x)). by apply list_elem_of_In.
Qed.

Ltac in_jobs :=
  first
    [ assumption
    | apply in_reaction_jobs; assumption
    | apply elem_of_app; first [right; in_jobs | left; in_jobs] ].

Lemma perform_keeps_waiting a s p r :
  waiting s p r ->
  match perform a s with
  | Ok _ s' | Exn _ s' => waiting s' p r \/ released s' p r
  | Stuck => True
  end.
Proof.
  destruct s as [cs os ps js tr sc]. unfold waiting at 1. cbn [promises].
  intros (b & rs & Hp & Hr).
  assert (waiting {| clients := cs; objects := os; promises := ps; jobs := js;
                     trace := tr; singletonClient := sc |} p r) as H0
    by (exists b, rs; done).
  destruct a; js_unfold; cbn; js_steps; try exact I;
    try (left; exact H0); clear H0;
    unfold waiting, released; cbn [promises jobs]; find_p p; same_lookups;
    first
      [ left; eexists _, _; split; [first [eassumption|reflexivity]|];
        first [assumption | apply elem_of_app; left; assumption]
      | right; eexists _, _; split; [reflexivity|]; in_jobs ].
Qed.


(** ** Promises that have settled *)









#[local] Arguments sent_call : simpl never.


(** ** Executions that respect the declared types *)

Lemma typed_reaction_jobs (o : settled) (rs : list reaction) :
  typed_settled o -> Forall typed_job (map (fun r => JReact r o) rs).
Proof. intros H. induction rs; constructor; done. Qed.

Ltac typed_forall :=
  repeat first
    [ assumption
    | apply Forall_nil_2
    | apply Forall_app_2
    | apply Forall_cons_2
    | apply Forall_insert
    | apply typed_reaction_jobs ].

Ltac typed_leaf :=
  try exact I; try reflexivity; try assumption;
  unfold typed_job, typed_promise, typed_client, typed_settled,
    typed_value, typed_response, fetched_token in *;
  cbn in *;
  repeat match goal with
         | E : ?x = _, H : context [?x] |- _ =>
             lazymatch H with
             | E => fail
             | _ => rewrite E in H; cbn in H
             end
         end;
  try done.

Ltac typed_fact P L i x H :=
  lazymatch goal with
  | _ : P x |- _ => fail
  | _ =>
      let F := fresh "F" in
      assert (F : Forall P L) by (typed_forall; typed_leaf);
      pose proof (Forall_lookup_1 P L i x F H); clear F
  end.

Ltac typed_known :=
  repeat match goal with
         | H : ?L !! ?i = Some ?x |- _ =>
             lazymatch type of x with
             | promise => typed_fact typed_promise L i x H
             | SupersetClient => typed_fact typed_client L i x H
             end
         end.

Lemma perform_typed a s :
  typed_action a = true ->
  typed_state s ->
  match perform a s with
  | Ok _ s' | Exn _ s' => typed_state s'
  | Stuck => True
  end.
Proof.
  destruct s as [cs os ps js tr sc]. unfold typed_state. cbn.
  intros Ha (Hc & Hp & Hj).
  destruct a; try (destruct js as [|j q]; [exact I|];
                   apply Forall_cons in Hj as [Hj1 Hj2]);
    js_unfold; cbn; js_steps; try exact I;
    try (split; [|split]; assumption);
    typed_known;
    (split; [|split]); typed_forall; typed_leaf;
    match goal with
    | H : typed_token ?v = true, E : get_prop ?v _ = _ |- _ =>
        destruct v; try discriminate H; cbn in E; simplify_eq; discriminate
    end.
Qed.

Lemma typed_step_step s s' : typed_step s s' -> step s s'.
Proof.
  intros [a s1 s2 _ H|r k v s1 s2 Hr H].
  - by eapply step_perform.
  - by eapply step_mutate.
Qed.

Lemma typed_step_preserves s s' :
  typed_step s s' -> typed_state s -> typed_state s'.
Proof.
  intros [a s1 s2 Ha H|r k v s1 s2 Hr H] Ht.
  - pose proof (perform_typed a s1 Ha Ht) as Hp.
    destruct (perform a s1); cbn in H; try discriminate; by injection H as <-.
  - destruct s1 as [cs os ps js tr sc]. revert H. js_unfold. cbn.
    destruct (os !! r); cbn; [|discriminate]. by intros [= <-].
Qed.

Lemma typed_invariant s : typed_state s -> invariant s -> spec_invariant s.
Proof.
  intros (Hc & _ & _) Hinv this c Hcl.
  destruct (Hinv this c Hcl) as [Hp Hh]. split; [exact Hp|].
  pose proof (Forall_lookup_1 _ _ _ _ Hc Hcl) as Ht.
  unfold typed_client in Ht.
  intros [Hu Hn]. destruct (csrfToken c) as [| | | |t| | |] eqn:E;
    try discriminate Ht; try congruence.
  destruct (Hh t eq_refl) as (h & H1 & H2). by exists h, t.
Qed.

Lemma spec_invariant_invariant s : spec_invariant s -> invariant s.
Proof.
  intros H this c Hc. destruct (H this c Hc) as [Hp Hh].
  split; [exact Hp|]. intros t Ht.
  destruct Hh as (h & v & H1 & H2 & H3); [rewrite Ht; by split|].
  exists h. split; [exact H1|]. congruence.
Qed.

(** * The claims *)









(** A response whose body is [null] passes the test [typeof ... === 'object']
    and reading its token throws: the promise is rejected with a
    [TypeError]. *)
Lemma null_body_rejects_with_TypeError :
  let s := fresh_client None in
  let s' := ticks 4 (exec (deliver 2%nat (inl {| json := JNull; text := None |}))
                       (ticks 1 (exec (getCSRFToken 0%nat) s))) in
  promise_status s' 1%nat
    = Some (Settled (Rejected
              (JErr "TypeError" "Cannot read property 'csrf_token' of null"))).
Proof. vm_compute. reflexivity. Qed.

(** C4. A config with an initial token string, the empty string included,
    gives a client that is authenticated, whose headers carry
    [X-CSRFToken] with that token and whose pending promise is fulfilled with
    the token, so that [init()] returns that promise without any transport
    call.  A config without a token gives a client whose pending promise is
    rejected with [{error: message}], where the message is the text about
    the missing token followed by the URL of the login page of the
    instance: its protocol, ["//"], its host without one trailing slash, and
    ["/login"]. *)
Theorem constructed_with_token_is_authenticated s config :
  config_ok s config ->
  exists this s' c,
    constructor config s = Ok this s' /\
    clients s' !! this = Some c /\
    match cfg_csrfToken (default empty_config config) with
    | Some t =>
        csrfToken c = JStr t /\
        isAuthenticated this s' = Ok true s' /\
        (exists h, objects s' !! headers c = Some h /\
                   h !! "X-CSRFToken" = Some t) /\
        promise_status s' (csrfPromise c)
          = Some (Settled (Fulfilled (VJs (JStr t)))) /\
        init this None s' = Ok (csrfPromise c) s' /\
        api_calls (trace s') = api_calls (trace s)
    | None =>
        csrfToken c = JUndefined /\
        isAuthenticated this s' = Ok false s' /\
        promise_status s' (csrfPromise c)
          = Some (Settled (Rejected (error_payload
                    (no_token_message (getUrl c login_args))))) /\
        error_payload (no_token_message (getUrl c login_args))
          = JObj [("error",
                   JStr ("SupersetClient has no CSRF token, ensure it is initialized or"
                         +:+ String "010"%char
                               "      try logging into the Superset instance at "
                         +:+ protocol_string (protocol c) +:+ "//" +:+
                             strip_trailing_slash (host c) +:+ "/login"))] /\
        getUrl c login_args
          = protocol_string (protocol c) +:+ "//" +:+
            strip_trailing_slash (host c) +:+ "/login" /\
        api_calls (trace s') = api_calls (trace s)
    end.
Proof.
  intros Hcfg.
  pose proof (constructor_run s config _ (spread_config_ok s config Hcfg))
    as Hrun.
  destruct s as [cs os ps js tr sc]. cbn in Hrun.
  destruct (cfg_csrfToken (default empty_config config)) as [t|].
  - eexists _, _, _. split; [exact Hrun|]. cbn.
    split; [by apply lookup_snoc_new|]. cbn.
    split; [reflexivity|].
    split; [js_run; reflexivity|].
    split.
    { eexists. split.
      - apply lookup_snoc_new. by norm_len.
      - apply lookup_insert_eq. }
    split.
    { unfold promise_status. cbn.
      rewrite lookup_snoc_new; [done|]. by norm_len. }
    split; [js_run; reflexivity|].
    unfold api_calls. rewrite omap_app. cbn. by rewrite app_nil_r.
  - eexists _, _, _. split; [exact Hrun|]. cbn.
    split; [by apply lookup_snoc_new|]. cbn.
    split; [reflexivity|].
    split; [js_run; reflexivity|].
    split.
    { unfold promise_status. cbn. rewrite lookup_snoc_new; done. }
    split.
    { unfold error_payload, no_token_message. rewrite getUrl_eq.
      reflexivity. }
    split; [rewrite getUrl_eq; reflexivity|].
    unfold api_calls. rewrite omap_app. cbn. by rewrite app_nil_r.
Qed.


Lemma constructed_with_token_is_authenticated_witness :
  config_ok initial (Some (config_with_token (Some ""))) /\
  config_ok initial None /\
  (exists this s' c,
     constructor (Some (config_with_token (Some ""))) initial = Ok this s' /\
     clients s' !! this = Some c /\
     isAuthenticated this s' = Ok true s' /\
     init this None s' = Ok (csrfPromise c) s') /\
  (exists this s' c,
     constructor None initial = Ok this s' /\
     clients s' !! this = Some c /\
     promise_status s' (csrfPromise c)
       = Some (Settled (Rejected
           (JObj [("error",
                   JStr ("SupersetClient has no CSRF token, ensure it is initialized or"
                         +:+ String "010"%char
                               "      try logging into the Superset instance at http://localhost/login"))])))).
Proof.
  split; [exact I|]. split; [exact I|]. split.
  - destruct (constructed_with_token_is_authenticated initial
                (Some (config_with_token (Some ""))) I)
      as (this & s' & c & H1 & H2 & H3).
    cbn in H3. destruct H3 as (_ & H3 & _ & _ & H4 & _).
    exists this, s', c. repeat split; assumption.
  - destruct (constructed_with_token_is_authenticated initial None I)
      as (this & s' & c & H1 & H2 & H3).
    cbn [cfg_csrfToken default empty_config] in H3.
    destruct H3 as (_ & _ & H3 & H4 & _).
    exists this, s', c. split; [exact H1|]. split; [exact H2|].
    rewrite H3, H4. clear H3 H4.
    assert (constructor None initial = Ok 0%nat (fresh_client None)) as E
      by (vm_compute; reflexivity).
    rewrite E in H1. injection H1 as <- <-.
    assert (clients (fresh_client None) !! 0%nat
            = Some (no_token_client 0%nat 0%nat)) as E2 by reflexivity.
    injection (eq_trans (eq_sym E2) H2) as <-.
    vm_compute. reflexivity.
Defined.

(** C5. [init] without [force], on an authenticated client, returns the
    pending promise of the client and leaves the state as it is: no fetch,
    however often it is called.  [init(true)], and [reAuthenticate()] of the
    registry, make exactly one transport call, the request for the token,
    whatever the token of the client is; the continuation of that fetch makes
    no further call. *)
Theorem init_fetches_only_when_forced_or_needed :
  (forall s this c,
     clients s !! this = Some c ->
     defined (csrfToken c) ->
     init this None s = Ok (csrfPromise c) s /\
     init this (Some false) s = Ok (csrfPromise c) s) /\
  (forall s this c hs,
     clients s !! this = Some c ->
     objects s !! headers c = Some hs ->
     exists o s',
       init this (Some true) s = Ok o s' /\
       api_calls (trace s') = api_calls (trace s) ++ [token_call c hs] /\
       (singletonClient s = Some this ->
        PublicAPI.reAuthenticate s = Ok o s') /\
       (forall s'' d outcome,
          api_calls (trace (exec (run_job
                       (JReact (RThen (KToken this) d) outcome)) s''))
          = api_calls (trace s''))).
Proof.
  split.
  - intros s this c Hc [Hu Hn].
    unfold init, isAuthenticated, get_client, read, bind, ret. rewrite Hc.
    destruct (csrfToken c) eqn:E; try congruence; cbn; by rewrite Hc.
  - intros s this c hs Hc Hh.
    pose proof (getCSRFToken_run s this c hs Hc Hh) as Hrun. cbv zeta in Hrun.
    rewrite <- (init_forced s this c Hc) in Hrun.
    eexists _, _. split; [exact Hrun|].
    split.
    { cbn. unfold api_calls. rewrite omap_app. reflexivity. }
    split.
    { intros Hs. unfold PublicAPI.reAuthenticate.
      rewrite (on_instance_some _ s this Hs). exact Hrun. }
    intros s'' d outcome. apply run_job_no_call. by destruct outcome.
Qed.


Lemma init_fetches_only_when_forced_or_needed_witness :
  clients (fresh_client (Some "abc")) !! 0%nat
    = Some {| credentials := None; csrfToken := JStr "abc";
              csrfPromise := 1%nat; protocol := Http; host := "localhost";
              headers := 1%nat; mode := "same-origin"; timeout := None |} /\
  defined (JStr "abc") /\
  objects (fresh_client (Some "abc")) !! 1%nat
    = Some {["X-CSRFToken" := "abc"]} /\
  init 0%nat None (fresh_client (Some "abc"))
    = Ok 1%nat (fresh_client (Some "abc")) /\
  exists o s',
    init 0%nat (Some true) (fresh_client (Some "abc")) = Ok o s' /\
    length (api_calls (trace s')) = 1%nat.
Proof.
  assert (defined (JStr "abc")) as Hd by (split; discriminate).
  split; [reflexivity|]. split; [exact Hd|]. split; [reflexivity|].
  split.
  - exact (proj1 (proj1 init_fetches_only_when_forced_or_needed
                    (fresh_client (Some "abc")) 0%nat _ eq_refl Hd)).
  - destruct (proj2 init_fetches_only_when_forced_or_needed
                (fresh_client (Some "abc")) 0%nat _ _ eq_refl eq_refl)
      as (o & s' & H1 & H2 & _).
    exists o, s'. split; [exact H1|]. rewrite H2. reflexivity.
Defined.

(** C6. [isAuthenticated()] is true exactly when the current token is a
    defined value; the empty string is one, [undefined] is not. *)
Theorem isAuthenticated_iff_defined s this c :
  clients s !! this = Some c ->
  exists b,
    isAuthenticated this s = Ok b s /\
    (b = true <-> defined (csrfToken c)) /\
    (csrfToken c = JStr "" -> b = true) /\
    (csrfToken c = JUndefined -> b = false).
Proof.
  intros Hc. eexists. split.
  - unfold isAuthenticated, get_client, read, bind, ret. by rewrite Hc.
  - unfold defined. destruct (csrfToken c); cbn; repeat split; try done;
      intros []; done.
Qed.

Lemma isAuthenticated_iff_defined_witness :
  clients (fresh_client (Some "")) !! 0%nat
    = Some {| credentials := None; csrfToken := JStr ""; csrfPromise := 1%nat;
              protocol := Http; host := "localhost"; headers := 1%nat;
              mode := "same-origin"; timeout := None |} /\
  isAuthenticated 0%nat (fresh_client (Some ""))
    = Ok true (fresh_client (Some "")).
Proof.
  split; [reflexivity|].
  destruct (isAuthenticated_iff_defined (fresh_client (Some "")) 0%nat _ eq_refl)
    as (b & Hb & _ & Hempty & _).
  rewrite Hb. f_equal. apply Hempty. reflexivity.
Defined.

(** C7. The invariant holds initially and after every operation of the
    client, every microtask it schedules and every delivery of a response of
    the declared type, in whatever order they come: the pending-promise
    field of every client refers to a promise, and whenever the token of a
    client is known (neither [undefined] nor [null]) it is a string and the
    [X-CSRFToken] entry of the headers of the client is that string.  The
    header part for string tokens holds without the assumption on the
    responses as well. *)
Theorem invariant_of_reachable_states :
  spec_invariant initial /\
  (forall s s',
     typed_state s -> spec_invariant s -> typed_step s s' ->
     typed_state s' /\ spec_invariant s') /\
  (forall s, typed_reachable s -> typed_state s /\ spec_invariant s) /\
  (forall s s', invariant s -> step s s' -> invariant s') /\
  (forall s, reachable s -> invariant s).
Proof.
  assert (invariant initial) as H0 by (intros this c Hc; discriminate Hc).
  assert (typed_state initial) as T0 by (repeat split; apply Forall_nil_2).
  assert (forall s s',
     typed_state s -> spec_invariant s -> typed_step s s' ->
     typed_state s' /\ spec_invariant s') as Hstep.
  { intros s s' Ht Hs Hst.
    pose proof (typed_step_preserves s s' Hst Ht) as Ht'.
    split; [exact Ht'|]. apply typed_invariant; [exact Ht'|].
    eapply step_preserves; [by apply typed_step_step|].
    by apply spec_invariant_invariant. }
  split; [by apply typed_invariant|].
  split; [exact Hstep|].
  split.
  { unfold typed_reachable. apply rtc_ind_r.
    - split; [exact T0|by apply typed_invariant].
    - intros s1 s2 _ Hst [Ht Hs]. by eapply Hstep. }
  split.
  - intros s s' Hinv Hst. by eapply step_preserves.
  - unfold reachable. apply rtc_ind_r; [exact H0|].
    intros s1 s2 _ Hst IH. by eapply step_preserves.
Qed.

Lemma invariant_of_reachable_states_witness :
  typed_reachable
    (ticks 4 (exec (deliver 2%nat (inl (token_response "abc")))
                (ticks 1 (exec (getCSRFToken 0%nat) (fresh_client None))))) /\
  spec_invariant
    (ticks 4 (exec (deliver 2%nat (inl (token_response "abc")))
                (ticks 1 (exec (getCSRFToken 0%nat) (fresh_client None))))) /\
  isAuthenticated 0%nat
    (ticks 4 (exec (deliver 2%nat (inl (token_response "abc")))
                (ticks 1 (exec (getCSRFToken 0%nat) (fresh_client None)))))
  = Ok true
    (ticks 4 (exec (deliver 2%nat (inl (token_response "abc")))
                (ticks 1 (exec (getCSRFToken 0%nat) (fresh_client None))))).
Proof.
  assert (forall a s s',
            typed_action a = true -> outcome_state (perform a s) = Some s' ->
            typed_reachable s -> typed_reachable s') as Hnext.
  { intros a s s' Ha Ho Hs. eapply rtc_r; [exact Hs|].
    by eapply typed_perform. }
  assert (typed_reachable
    (ticks 4 (exec (deliver 2%nat (inl (token_response "abc")))
                (ticks 1 (exec (getCSRFToken 0%nat) (fresh_client None))))))
    as Hr.
  { apply (Hnext ATick
             (ticks 3 (exec (deliver 2%nat (inl (token_response "abc")))
                (ticks 1 (exec (getCSRFToken 0%nat) (fresh_client None))))));
      [reflexivity|vm_compute; reflexivity|].
    apply (Hnext ATick
             (ticks 2 (exec (deliver 2%nat (inl (token_response "abc")))
                (ticks 1 (exec (getCSRFToken 0%nat) (fresh_client None))))));
      [reflexivity|vm_compute; reflexivity|].
    apply (Hnext ATick
             (ticks 1 (exec (deliver 2%nat (inl (token_response "abc")))
                (ticks 1 (exec (getCSRFToken 0%nat) (fresh_client None))))));
      [reflexivity|vm_compute; reflexivity|].
    apply (Hnext ATick
             (exec (deliver 2%nat (inl (token_response "abc")))
                (ticks 1 (exec (getCSRFToken 0%nat) (fresh_client None)))));
      [reflexivity|vm_compute; reflexivity|].
    apply (Hnext (ADeliver 2%nat (inl (token_response "abc")))
             (ticks 1 (exec (getCSRFToken 0%nat) (fresh_client None))));
      [reflexivity|vm_compute; reflexivity|].
    apply (Hnext ATick (exec (getCSRFToken 0%nat) (fresh_client None)));
      [reflexivity|vm_compute; reflexivity|].
    apply (Hnext (AGetCSRFToken 0%nat) (fresh_client None));
      [reflexivity|vm_compute; reflexivity|].
    apply (Hnext (ANew (Some (config_with_token None))) initial);
      [reflexivity|vm_compute; reflexivity|].
    apply rtc_refl. }
  split; [exact Hr|].
  split.
  - exact (proj2 (proj1 (proj2 (proj2 invariant_of_reachable_states)) _ Hr)).
  - vm_compute. reflexivity.
Defined.

(** The assumption on the responses is needed for the part of the
    invariant on known tokens: a token outside the declared type (here a
    number that the token endpoint answers) makes the client authenticated
    while its headers carry no [X-CSRFToken]. *)
Lemma numeric_token_breaks_spec_invariant :
  exists s,
    run numeric_token_run initial = Some s /\
    reachable s /\
    isAuthenticated 0%nat s = Ok true s /\
    ~ spec_invariant s.
Proof.
  destruct (run numeric_token_run initial) as [s|] eqn:E;
    [|vm_compute in E; discriminate].
  exists s. split; [reflexivity|].
  split; [by apply (run_reachable numeric_token_run initial); [apply rtc_refl|]|].
  vm_compute in E. injection E as <-.
  split; [vm_compute; reflexivity|].
  intros H.
  destruct (H 0%nat _ eq_refl) as [_ Hh].
  destruct Hh as (h & v & _ & _ & Hv); [split; discriminate|].
  discriminate Hv.
Qed.

(** C8. [getUrl] returns an explicit [url] verbatim, whatever the host and
    the endpoint; otherwise it joins the protocol of the instance, ["//"],
    the host (the per-call one, or that of the instance when none or an
    empty one is given) without one trailing slash, ["/"], and the endpoint
    without one leading slash.  For host ["example.com/"], endpoint
    ["/api/x"] and protocol [http:] the result is
    ["http://example.com/api/x"]. *)
Theorem getUrl_resolves :
  (forall this a,
     getUrl this a =
       match url_url a with
       | Some url => url
       | None =>
           protocol_string (protocol this) +:+ "//" +:+
           strip_trailing_slash (or_else_str (url_host a) (host this)) +:+
           "/" +:+ strip_leading_slash (default "" (url_endpoint a))
       end) /\
  (forall this h e u,
     getUrl this {| url_host := h; url_endpoint := e; url_url := Some u |} = u) /\
  (forall cr tok p hd hs md tm,
     getUrl {| credentials := cr; csrfToken := tok; csrfPromise := p;
               protocol := Http; host := hd; headers := hs; mode := md;
               timeout := tm |}
            {| url_host := Some "example.com/"; url_endpoint := Some "/api/x";
               url_url := None |}
     = "http://example.com/api/x") /\
  (forall d ch h,
     or_else_str None d = d /\ or_else_str (Some "") d = d /\
     or_else_str (Some (String ch h)) d = String ch h) /\
  (forall s,
     strip_trailing_slash (s +:+ "/") = s /\
     strip_leading_slash ("/" +:+ s) = s /\
     strip_trailing_slash "" = "" /\ strip_leading_slash "" = "").
Proof.
  split; [exact getUrl_eq|].
  split; [reflexivity|].
  split; [reflexivity|].
  split; [by repeat split|].
  intros s. split; [apply strip_trailing_slash_snoc|]. by repeat split.
Qed.

(** C9. Every entry point of the registry but [configure] and [reset]
    throws the configuration error when no instance is held, which is the
    case initially and after [reset]; with an instance it is the method of
    that instance.  [configure] holds the client it constructs. *)
Theorem registry_requires_instance :
  (forall s request force,
     match singletonClient s with
     | None =>
         PublicAPI.get request s = Exn not_configured s /\
         PublicAPI.post request s = Exn not_configured s /\
         PublicAPI.init force s = Exn not_configured s /\
         PublicAPI.isAuthenticated s = Exn not_configured s /\
         PublicAPI.reAuthenticate s = Exn not_configured s
     | Some this =>
         PublicAPI.get request s = get this request s /\
         PublicAPI.post request s = post this request s /\
         PublicAPI.init force s = init this force s /\
         PublicAPI.isAuthenticated s = isAuthenticated this s /\
         PublicAPI.reAuthenticate s = init this (Some true) s
     end) /\
  singletonClient initial = None /\
  (forall s, exists s',
     PublicAPI.reset s = Ok tt s' /\ singletonClient s' = None) /\
  (forall s config,
     PublicAPI.configure config s =
       match constructor config s with
       | Ok this s0 => Ok this (with_singleton (Some this) s0)
       | Exn e s0 => Exn e s0
       | Stuck => Stuck
       end).
Proof.
  split; [|split; [reflexivity|split]].
  - intros s request force.
    unfold PublicAPI.get, PublicAPI.post, PublicAPI.init,
      PublicAPI.isAuthenticated, PublicAPI.reAuthenticate.
    destruct (singletonClient s) as [this|] eqn:Hs.
    + rewrite !(on_instance_some _ s this Hs). by repeat split.
    + rewrite !(on_instance_none _ s Hs). by repeat split.
  - intros s. eexists. split; reflexivity.
  - intros s config.
    unfold PublicAPI.configure, bind, modify, ret.
    by destruct (constructor config s).
Qed.


(** C10. Construction succeeds for the empty config and for every config:
    an omitted field takes its default ([http:], [localhost],
    [same-origin], no headers; credentials, timeout and token stay
    undefined).  The headers of the client are a new object with the
    contents of the caller's: an assignment that the caller makes later on
    its own object does not change the headers of the client. *)
Theorem constructor_fills_defaults :
  (forall s,
     exists this s' c,
       constructor None s = Ok this s' /\
       constructor (Some empty_config) s = Ok this s' /\
       clients s' !! this = Some c /\
       protocol c = Http /\ host c = "localhost" /\ mode c = "same-origin" /\
       credentials c = None /\ timeout c = None /\
       csrfToken c = JUndefined /\
       objects s' !! headers c = Some ∅) /\
  (forall s config,
     config_ok s config ->
     let cfg := default empty_config config in
     exists this s' c h,
       constructor config s = Ok this s' /\
       clients s' !! this = Some c /\
       protocol c = default Http (cfg_protocol cfg) /\
       host c = default "localhost" (cfg_host cfg) /\
       mode c = default "same-origin" (cfg_mode cfg) /\
       credentials c = cfg_credentials cfg /\
       timeout c = cfg_timeout cfg /\
       csrfToken c = match cfg_csrfToken cfg with
                     | Some t => JStr t
                     | None => JUndefined
                     end /\
       objects s' !! headers c = Some h /\
       h = match cfg_csrfToken cfg with
           | Some t => <["X-CSRFToken" := t]> (config_headers s config)
           | None => config_headers s config
           end /\
       forall r k v,
         cfg_headers cfg = Some r ->
         headers c <> r /\
         exists s'',
           mutate_object r k v s' = Ok tt s'' /\
           objects s'' !! headers c = Some h /\
           clients s'' = clients s').
Proof.
  split.
  - intros s.
    pose proof (constructor_run s None ∅ eq_refl) as Hrun.
    destruct s as [cs os ps js tr sc]. cbn in Hrun.
    eexists _, _, _. split; [exact Hrun|]. split; [exact Hrun|]. cbn.
    split; [by apply lookup_snoc_new|]. cbn.
    repeat (split; [reflexivity|]). by apply lookup_snoc_new.
  - intros s config Hcfg cfg.
    pose proof (constructor_run s config _ (spread_config_ok s config Hcfg))
      as Hrun.
    unfold config_ok in Hcfg. fold cfg in Hcfg, Hrun.
    destruct s as [cs os ps js tr sc]. cbn in Hrun, Hcfg.
    destruct (cfg_csrfToken cfg) as [t|];
      (eexists _, _, _, _; split; [exact Hrun|]; cbn;
       split; [by apply lookup_snoc_new|]; cbn;
       repeat (split; [reflexivity|]);
       split; [apply lookup_snoc_new; by norm_len|];
       split; [reflexivity|];
       intros r k v Hr; rewrite Hr in Hcfg; destruct Hcfg as [hr Hhr];
       split; [store_neq|];
       js_run; eexists; split; [reflexivity|]; cbn;
       split; [|reflexivity];
       rewrite list_lookup_insert_ne by store_neq;
       apply lookup_snoc_new; by norm_len).
Qed.

Lemma constructor_fills_defaults_witness :
  config_ok caller_state (Some (config_with_headers 0%nat)) /\
  exists this s' c h,
    constructor (Some (config_with_headers 0%nat)) caller_state = Ok this s' /\
    clients s' !! this = Some c /\
    objects s' !! headers c = Some h /\
    exists s'',
      mutate_object 0%nat "X-CSRFToken" "other" s' = Ok tt s'' /\
      objects s'' !! headers c = Some h.
Proof.
  assert (config_ok caller_state (Some (config_with_headers 0%nat))) as Hok
    by (eexists; reflexivity).
  split; [exact Hok|].
  destruct (proj2 constructor_fills_defaults caller_state
              (Some (config_with_headers 0%nat)) Hok)
    as (this & s' & c & h & H1 & H2 & _ & _ & _ & _ & _ & _ & H3 & _ & H4).
  destruct (H4 0%nat "X-CSRFToken" "other" eq_refl)
    as (_ & s'' & H5 & H6 & _).
  exists this, s', c, h. repeat split; try assumption.
  exists s''. split; assumption.
Defined.


(** * Further properties of the client *)

(** ** Requests that wait for the authentication promise *)

(** X1. A request made while the pending promise of the client is pending
    registers its callback on that promise and calls nothing.  Whatever
    happens next, the callback stays registered as long as that promise is
    pending, and the step that settles the promise puts the job of the
    callback in the queue with the outcome of the promise: the request is not
    sent before the promise it waits for has settled. *)
Theorem request_waits_for_pending_auth :
  (forall s this c b rs m r,
     clients s !! this = Some c ->
     promises s !! csrfPromise c
       = Some {| of_transport := b; status := Pending rs |} ->
     exists o s',
       request m this r s = Ok o s' /\
       trace s' = trace s /\
       jobs s' = jobs s ++ [JAdopt o (S o)] /\
       waiting s' (csrfPromise c) (RThen (handler_of m this r) (S o))) /\
  (forall s s' p r,
     waiting s p r -> step s s' -> waiting s' p r \/ released s' p r).
Proof.
  split.
  - intros s this c b rs m r Hc Hp.
    destruct s as [cs os ps js tr sc]; cbn [clients promises] in Hc, Hp.
    destruct m; js_run; norm_insert; norm_len;
      (eexists _, _; split; [reflexivity|]; cbn [trace jobs];
       split; [reflexivity|]; split; [reflexivity|];
       unfold waiting; cbn [promises]; eexists _, _; split;
       [solve_lookup | apply elem_of_app; right; apply list_elem_of_singleton;
                       reflexivity]).
  - intros s s' p r Hw Hstep.
    inversion Hstep as [a s1 s2 H|x k v s1 s2 _ H]; subst.
    + pose proof (perform_keeps_waiting a s p r Hw) as Hk.
      destruct (perform a s); cbn in H; try discriminate;
        by injection H as <-.
    + left. destruct s as [cs os ps js tr sc]. revert H. js_unfold. cbn.
      destruct (os !! x); cbn; [|discriminate]. by intros [= <-].
Qed.

Lemma request_waits_for_pending_auth_witness :
  let s := exec (getCSRFToken 0%nat) (fresh_client None) in
  clients s !! 0%nat
    = Some {| credentials := None; csrfToken := JUndefined;
              csrfPromise := 3%nat; protocol := Http; host := "localhost";
              headers := 0%nat; mode := "same-origin"; timeout := None |} /\
  promises s !! 3%nat = Some (pending []) /\
  exists o s',
    request GET 0%nat (request_to "/api/x") s = Ok o s' /\
    waiting s' 3%nat (RThen (KGet 0%nat (request_to "/api/x")) (S o)) /\
    step s' (tick s') /\
    (waiting (tick s') 3%nat (RThen (KGet 0%nat (request_to "/api/x")) (S o)) \/
     released (tick s') 3%nat (RThen (KGet 0%nat (request_to "/api/x")) (S o))).
Proof.
  cbv zeta.
  split; [vm_compute; reflexivity|]. split; [vm_compute; reflexivity|].
  destruct (proj1 request_waits_for_pending_auth
              (exec (getCSRFToken 0%nat) (fresh_client None)) 0%nat
              {| credentials := None; csrfToken := JUndefined;
                 csrfPromise := 3%nat; protocol := Http; host := "localhost";
                 headers := 0%nat; mode := "same-origin"; timeout := None |}
              false [] GET (request_to "/api/x"))
    as (o & s' & H1 & _ & _ & H3);
    [vm_compute; reflexivity|vm_compute; reflexivity|].
  assert (step s' (tick s')) as Hstep.
  { vm_compute in H1. injection H1 as <- <-.
    apply (step_perform ATick). vm_compute. reflexivity. }
  exists o, s'. split; [exact H1|]. split; [exact H3|]. split; [exact Hstep|].
  exact (proj2 request_waits_for_pending_auth _ _ _ _ H3 Hstep).
Defined.

#[local] Arguments sent_call : simpl never.

Lemma request_sent s this c b v hs rh m r :
  clients s !! this = Some c ->
  promises s !! csrfPromise c
    = Some {| of_transport := b; status := Settled (Fulfilled v) |} ->
  objects s !! headers c = Some hs ->
  request_headers s r = Some rh ->
  jobs s = [] ->
  let o := length (promises s) in
  exists s1,
    request m this r s = Ok o s1 /\
    trace s1 = trace s /\
    ticks 3 s1 =
      {| clients := clients s;
         objects := objects s;
         promises :=
           ((promises s ++ [pending []]) ++ [pending [RForward o]]) ++
           [{| of_transport := true; status := Pending [RForward (S o)] |}];
         jobs := [];
         trace := trace s ++ [EvCallApi (sent_call m c hs rh r) (S (S o))];
         singletonClient := singletonClient s |} /\
    forall outcome,
      let s3 := ticks 2 (exec (deliver (S (S o)) outcome) (ticks 3 s1)) in
      promise_status s3 o = Some (Settled (transport_outcome outcome)) /\
      trace s3 = trace (ticks 3 s1) /\
      jobs s3 = [].
Proof.
  intros Hc Hp Hh Hr Hj o. subst o.
  destruct s as [cs os ps js tr sc]. cbn [clients objects promises jobs] in *.
  subst js. unfold request_headers in Hr. cbn [objects] in Hr.
  destruct (req_headers r) as [x|] eqn:Hx; [|injection Hr as <-];
    destruct m; js_run; norm_insert; norm_len;
    (eexists; split; [reflexivity|]; split; [reflexivity|]);
    cbn [ticks]; repeat eval_tick;
    (split; [reflexivity|]);
    intros [resp|e]; cbv zeta; cbn [transport_outcome]; repeat eval_tick;
    (split; [unfold promise_status; cbn; lk; reflexivity|]);
    split; reflexivity.
Qed.

(** ** Requests of an authenticated client *)

(** X2. On a client whose pending promise is fulfilled, and with no other job
    around, [get] and [post] send nothing themselves; their callback calls
    the transport exactly once; and the promise they returned takes the
    outcome of that call: it is fulfilled with the response, or rejected with
    the error of the transport, unchanged. *)
Theorem authenticated_request_takes_transport_outcome
    s this c b v hs rh m r :
  clients s !! this = Some c ->
  promises s !! csrfPromise c
    = Some {| of_transport := b; status := Settled (Fulfilled v) |} ->
  objects s !! headers c = Some hs ->
  request_headers s r = Some rh ->
  jobs s = [] ->
  exists o s1,
    request m this r s = Ok o s1 /\
    trace s1 = trace s /\
    new_events s (ticks 3 s1) = [EvCallApi (sent_call m c hs rh r) (S (S o))] /\
    jobs (ticks 3 s1) = [] /\
    forall outcome,
      let s3 := ticks 2 (exec (deliver (S (S o)) outcome) (ticks 3 s1)) in
      promise_status s3 o = Some (Settled (transport_outcome outcome)) /\
      new_events s s3 = [EvCallApi (sent_call m c hs rh r) (S (S o))] /\
      jobs s3 = [].
Proof.
  intros Hc Hp Hh Hr Hj.
  destruct (request_sent s this c b v hs rh m r Hc Hp Hh Hr Hj)
    as (s1 & H1 & H2 & H3 & H4).
  exists (length (promises s)), s1. split; [exact H1|]. split; [exact H2|].
  assert (new_events s (ticks 3 s1)
          = [EvCallApi (sent_call m c hs rh r) (S (S (length (promises s))))])
    as Hev by (apply new_events_app; by rewrite H3).
  split; [exact Hev|]. split; [by rewrite H3|].
  intros outcome. destruct (H4 outcome) as (H5 & H6 & H7).
  split; [exact H5|]. split; [|exact H7].
  unfold new_events in *. cbv zeta in H6. by rewrite H6.
Qed.

Lemma authenticated_request_takes_transport_outcome_witness :
  clients (fresh_client (Some "abc")) !! 0%nat = Some (abc_client 1%nat 1%nat) /\
  promises (fresh_client (Some "abc")) !! 1%nat
    = Some {| of_transport := false;
              status := Settled (Fulfilled (VJs (JStr "abc"))) |} /\
  objects (fresh_client (Some "abc")) !! 1%nat
    = Some {["X-CSRFToken" := "abc"]} /\
  request_headers (fresh_client (Some "abc")) (request_to "/api/x") = Some ∅ /\
  jobs (fresh_client (Some "abc")) = [] /\
  exists o s1,
    request POST 0%nat (request_to "/api/x") (fresh_client (Some "abc"))
      = Ok o s1 /\
    promise_status
      (ticks 2 (exec (deliver (S (S o)) (inr network_error)) (ticks 3 s1))) o
    = Some (Settled (Rejected network_error)).
Proof.
  split; [reflexivity|]. split; [reflexivity|]. split; [reflexivity|].
  split; [reflexivity|]. split; [reflexivity|].
  destruct (authenticated_request_takes_transport_outcome
              (fresh_client (Some "abc")) 0%nat (abc_client 1%nat 1%nat) false
              (VJs (JStr "abc")) {["X-CSRFToken" := "abc"]} ∅ POST
              (request_to "/api/x") eq_refl eq_refl eq_refl eq_refl eq_refl)
    as (o & s1 & H1 & _ & _ & _ & H2).
  exists o, s1. split; [exact H1|].
  exact (proj1 (H2 (inr network_error))).
Defined.

(** X3. What the request carries: the method of the entry point; the headers
    of the client overridden, key by key, by those of the request; the
    credentials, mode and timeout of the request unless they are falsy
    (absent, the empty string, a timeout of [0]), and then those of the
    client; the URL that [getUrl] resolves.  [get] passes the body and
    neither payload nor stringify flag, [post] passes these two and no
    body. *)
Theorem request_carries_merged_settings s this c b v hs rh m r :
  clients s !! this = Some c ->
  promises s !! csrfPromise c
    = Some {| of_transport := b; status := Settled (Fulfilled v) |} ->
  objects s !! headers c = Some hs ->
  request_headers s r = Some rh ->
  jobs s = [] ->
  exists o s1 a,
    request m this r s = Ok o s1 /\
    api_calls (new_events s (ticks 3 s1)) = [a] /\
    api_method a = m /\
    (forall k, api_headers a !! k
               = match rh !! k with Some x => Some x | None => hs !! k end) /\
    api_timeout a = match req_timeout r with
                    | Some n => if n =? 0 then timeout c else Some n
                    | None => timeout c
                    end /\
    api_mode a = match req_mode r with
                 | Some x => if String.eqb x "" then mode c else x
                 | None => mode c
                 end /\
    api_credentials a = match req_credentials r with
                        | Some x =>
                            if String.eqb x "" then credentials c else Some x
                        | None => credentials c
                        end /\
    api_url a = getUrl c {| url_host := req_host r;
                            url_endpoint := req_endpoint r;
                            url_url := req_url r |} /\
    api_parseMethod a = req_parseMethod r /\
    api_signal a = req_signal r /\
    match m with
    | GET => api_body a = req_body r /\ api_postPayload a = JUndefined /\
             api_stringify a = None
    | POST => api_body a = JUndefined /\
              api_postPayload a = req_postPayload r /\
              api_stringify a = req_stringify r
    end.
Proof.
  intros Hc Hp Hh Hr Hj.
  destruct (request_sent s this c b v hs rh m r Hc Hp Hh Hr Hj)
    as (s1 & H1 & H2 & H3 & _).
  exists (length (promises s)), s1, (sent_call m c hs rh r).
  split; [exact H1|].
  split; [erewrite new_events_app by (by rewrite H3); reflexivity|].
  unfold sent_call. cbn.
  split; [reflexivity|]. split.
  { intros k. rewrite lookup_union. by destruct (rh !! k), (hs !! k). }
  split.
  { unfold or_num, truthy_num. destruct (req_timeout r) as [n|]; [|done].
    by destruct (n =? 0). }
  split.
  { unfold or_else_str. done. }
  split.
  { unfold or_str, truthy_str. destruct (req_credentials r) as [x|]; [|done].
    by destruct (String.eqb x ""). }
  split; [reflexivity|]. split; [reflexivity|]. split; [reflexivity|].
  by destruct m.
Qed.

Lemma request_carries_merged_settings_witness :
  clients client_beside_caller !! 0%nat = Some (abc_client 1%nat 2%nat) /\
  promises client_beside_caller !! 1%nat
    = Some {| of_transport := false;
              status := Settled (Fulfilled (VJs (JStr "abc"))) |} /\
  objects client_beside_caller !! 2%nat = Some {["X-CSRFToken" := "abc"]} /\
  request_headers client_beside_caller (request_with_headers "/api/x" 0%nat)
    = Some {["Accept" := "application/json"]} /\
  jobs client_beside_caller = [] /\
  exists o s1 a,
    request GET 0%nat (request_with_headers "/api/x" 0%nat) client_beside_caller
      = Ok o s1 /\
    api_calls (new_events client_beside_caller (ticks 3 s1)) = [a] /\
    api_headers a !! "Accept" = Some "application/json" /\
    api_headers a !! "X-CSRFToken" = Some "abc" /\
    api_timeout a = None.
Proof.
  split; [reflexivity|]. split; [reflexivity|]. split; [reflexivity|].
  split; [reflexivity|]. split; [reflexivity|].
  destruct (request_carries_merged_settings client_beside_caller 0%nat
              (abc_client 1%nat 2%nat) false (VJs (JStr "abc"))
              {["X-CSRFToken" := "abc"]} {["Accept" := "application/json"]}
              GET (request_with_headers "/api/x" 0%nat)
              eq_refl eq_refl eq_refl eq_refl eq_refl)
    as (o & s1 & a & H1 & H2 & _ & H3 & H4 & _).
  exists o, s1, a. split; [exact H1|]. split; [exact H2|].
  split; [by rewrite H3|]. split; [by rewrite H3|]. exact H4.
Defined.


(** X4. The header object of a request is read when the callback runs, not
    when [get] or [post] is called: what the caller writes into it between
    the call and the microtasks is sent. *)
Theorem request_headers_are_read_when_sent s this c b v hs rh m r x k w :
  clients s !! this = Some c ->
  promises s !! csrfPromise c
    = Some {| of_transport := b; status := Settled (Fulfilled v) |} ->
  objects s !! headers c = Some hs ->
  req_headers r = Some x ->
  objects s !! x = Some rh ->
  jobs s = [] ->
  exists o s1 s2,
    request m this r s = Ok o s1 /\
    mutate_object x k w s1 = Ok tt s2 /\
    api_calls (new_events s (ticks 3 s2))
      = [sent_call m c hs (<[k := w]> rh) r].
Proof.
  intros Hc Hp Hh Hx Hr Hj.
  destruct s as [cs os ps js tr sc]. cbn [clients objects promises jobs] in *.
  subst js.
  assert (<[k:=w]> hs ∪ <[k:=w]> hs = <[k:=w]> hs ∪ hs) as Hidem.
  { apply map_eq; intros i. rewrite !lookup_union.
    destruct (decide (i = k)) as [->|?].
    - rewrite !lookup_insert_eq. by destruct (hs !! k).
    - rewrite !lookup_insert_ne by done. by destruct (hs !! i). }
  destruct (decide (headers c = x)) as [Heq|Hne].
  - subst x. assert (rh = hs) as -> by congruence.
    destruct m; js_run; norm_insert; norm_len;
      (eexists _, _, _; split; [reflexivity|]);
      unfold mutate_object; js_run; (split; [reflexivity|]);
      cbn [ticks]; repeat eval_tick;
      (erewrite new_events_app by reflexivity); cbn [api_calls];
      unfold sent_call; by rewrite Hidem.
  - destruct m; js_run; norm_insert; norm_len;
      (eexists _, _, _; split; [reflexivity|]);
      unfold mutate_object; js_run; (split; [reflexivity|]);
      cbn [ticks]; repeat eval_tick;
      (erewrite new_events_app by reflexivity); reflexivity.
Qed.

Lemma request_headers_are_read_when_sent_witness :
  clients client_beside_caller !! 0%nat = Some (abc_client 1%nat 2%nat) /\
  promises client_beside_caller !! 1%nat
    = Some {| of_transport := false;
              status := Settled (Fulfilled (VJs (JStr "abc"))) |} /\
  objects client_beside_caller !! 2%nat = Some {["X-CSRFToken" := "abc"]} /\
  objects client_beside_caller !! 0%nat
    = Some {["Accept" := "application/json"]} /\
  jobs client_beside_caller = [] /\
  exists o s1 s2,
    request GET 0%nat (request_with_headers "/api/x" 0%nat)
      client_beside_caller = Ok o s1 /\
    mutate_object 0%nat "Accept" "text/plain" s1 = Ok tt s2 /\
    api_calls (new_events client_beside_caller (ticks 3 s2))
      = [sent_call GET (abc_client 1%nat 2%nat) {["X-CSRFToken" := "abc"]}
           (<["Accept" := "text/plain"]> {["Accept" := "application/json"]})
           (request_with_headers "/api/x" 0%nat)].
Proof.
  split; [reflexivity|]. split; [reflexivity|]. split; [reflexivity|].
  split; [reflexivity|]. split; [reflexivity|].
  exact (request_headers_are_read_when_sent client_beside_caller 0%nat
           (abc_client 1%nat 2%nat) false (VJs (JStr "abc"))
           {["X-CSRFToken" := "abc"]} {["Accept" := "application/json"]}
           GET (request_with_headers "/api/x" 0%nat) 0%nat
           "Accept" "text/plain" eq_refl eq_refl eq_refl eq_refl eq_refl
           eq_refl).
Defined.




(** ** What no method does *)

(** X6. No method, microtask or delivery writes into a header object that
    exists: the store of header objects only grows, so the objects of a
    config or of a request, and the former header objects of a client, stay
    as the caller left them. *)
Theorem actions_only_add_header_objects a s :
  match perform a s with
  | Ok _ s' | Exn _ s' => objects s `prefix_of` objects s'
  | Stuck => True
  end.
Proof.
  destruct s as [cs os ps js tr sc].
  destruct a; js_unfold; cbn; js_steps; try exact I;
    repeat first [reflexivity | apply prefix_app_r].
Qed.

Ltac cfg_tac Hc :=
  first
    [ by (eexists; split; [reflexivity | repeat split])
    | match goal with
      | |- context [<[?i:=_]> _ !! ?t] =>
          destruct (decide (i = t)) as [Heq|Hne];
          [ rewrite ?Heq in *;
            match goal with
            | H : _ !! _ = Some ?d |- context [upd_csrfToken _ ?d] =>
                injection (eq_trans (eq_sym Hc) H) as <-
            end;
            eexists; split; [solve_lookup | by repeat split]
          | rewrite !list_lookup_insert_ne by done;
            eexists; split; [eassumption | by repeat split] ]
      end ].

Lemma perform_keeps_config a s this c :
  clients s !! this = Some c ->
  match perform a s with
  | Ok _ s' | Exn _ s' =>
      exists c', clients s' !! this = Some c' /\ same_config c c'
  | Stuck => True
  end.
Proof.
  destruct s as [cs os ps js tr sc]. cbn [clients]. intros Hc.
  destruct a; js_unfold; cbn; js_steps; try exact I; cfg_tac Hc.
Qed.

Lemma same_config_trans c1 c2 c3 :
  same_config c1 c2 -> same_config c2 c3 -> same_config c1 c3.
Proof. unfold same_config. intuition congruence. Qed.

Lemma same_config_getUrl c c' args :
  same_config c c' -> getUrl c' args = getUrl c args.
Proof. intros (Hp & Hh & _). unfold getUrl. by rewrite Hp, Hh. Qed.

(** X7. The protocol, host, mode, timeout and credentials of a client are
    those it was constructed with, whatever is called and whatever happens
    afterwards; so [getUrl] gives the same URL for the same arguments
    throughout the life of the client. *)
Theorem configuration_never_changes s s' this c :
  rtc step s s' ->
  clients s !! this = Some c ->
  exists c',
    clients s' !! this = Some c' /\ same_config c c' /\
    forall args, getUrl c' args = getUrl c args.
Proof.
  intros Hsteps Hc.
  assert (exists c', clients s' !! this = Some c' /\ same_config c c')
    as (c' & Hc' & Hs).
  { revert c Hc. induction Hsteps as [s|s s1 s2 Hstep _ IH]; intros c Hc.
    - exists c. by repeat split.
    - assert (exists c1, clients s1 !! this = Some c1 /\ same_config c c1)
        as (c1 & Hc1 & Hs1).
      { inversion Hstep as [a ? ? Ho|r k v ? ? _ Hm]; subst.
        - pose proof (perform_keeps_config a s this c Hc) as Hp.
          destruct (perform a s); cbn in Ho; try discriminate;
            by injection Ho as <-.
        - exists c. split; [|by repeat split].
          revert Hm. destruct s as [cs os ps js tr sc]. js_unfold. cbn.
          destruct (os !! r); cbn; [|discriminate]. by intros [= <-]. }
      destruct (IH c1 Hc1) as (c2 & Hc2 & Hs2).
      exists c2. split; [exact Hc2|]. by eapply same_config_trans. }
  exists c'. split; [exact Hc'|]. split; [exact Hs|].
  intros args. by apply same_config_getUrl.
Qed.

Lemma configuration_never_changes_witness :
  rtc step (fresh_client (Some "abc"))
    (exec (getCSRFToken 0%nat) (fresh_client (Some "abc"))) /\
  clients (fresh_client (Some "abc")) !! 0%nat
    = Some (abc_client 1%nat 1%nat) /\
  exists c',
    clients (exec (getCSRFToken 0%nat) (fresh_client (Some "abc"))) !! 0%nat
      = Some c' /\
    same_config (abc_client 1%nat 1%nat) c' /\
    forall args, getUrl c' args = getUrl (abc_client 1%nat 1%nat) args.
Proof.
  assert (rtc step (fresh_client (Some "abc"))
            (exec (getCSRFToken 0%nat) (fresh_client (Some "abc")))) as Hs.
  { apply rtc_once. apply (step_perform (AGetCSRFToken 0%nat)).
    vm_compute. reflexivity. }
  split; [exact Hs|]. split; [reflexivity|].
  exact (configuration_never_changes _ _ 0%nat (abc_client 1%nat 1%nat)
           Hs eq_refl).
Defined.

(** X8. An action adds at most one transport call to the trace, and what was
    in the trace stays.  It adds none unless it is an entry point that may
    fetch the token ([init], [getCSRFToken], and [init] and [reAuthenticate]
    of the registry) or the microtask of a request callback: constructing a
    client, [configure], [reset], [isAuthenticated], [ensureAuth], the calls
    of [get] and [post] themselves, the other microtasks and the delivery of
    a response call nothing. *)
Theorem transport_calls_per_action a s :
  match perform a s with
  | Ok _ s' | Exn _ s' =>
      exists evs,
        trace s' = trace s ++ evs /\
        if may_call_transport a s
        then (length (api_calls evs) <= 1)%nat
        else api_calls evs = []
  | Stuck => True
  end.
Proof.
  destruct s as [cs os ps js tr sc].
  destruct a; js_unfold; cbn; js_steps; try exact I.
  all: rewrite <- ?(app_assoc (A := event)); cbn [app].
  all: try (exists []; split; [by rewrite app_nil_r|]; cbn;
            repeat js_case; first [reflexivity | lia]).
  all: try (eexists; split; [reflexivity|]; cbn;
            repeat js_case; first [reflexivity | lia | discriminate]).
  all: match goal with |- ?G => idtac G end.
Qed.


(** ** Token fetches that overlap or fail *)



(** X10. Two fetches in flight at once, answered in the reverse order: the
    token and the [X-CSRFToken] header of the client are those of the
    response that is processed last, the one of the first fetch, while the
    pending promise of the client, the one of the second fetch, is fulfilled
    with the token of the second response. *)
Theorem crossed_fetches_disagree s this c hs a b :
  clients s !! this = Some c ->
  objects s !! headers c = Some hs ->
  jobs s = [] ->
  exists p1 s1 p2 s2,
    getCSRFToken this s = Ok p1 s1 /\
    getCSRFToken this s1 = Ok p2 s2 /\
    let s3 := ticks 4 (exec (deliver (S p2) (inl (token_response b)))
                         (ticks 2 s2)) in
    let s4 := ticks 4 (exec (deliver (S p1) (inl (token_response a))) s3) in
    jobs s4 = [] /\
    exists c4 h4,
      clients s4 !! this = Some c4 /\
      csrfToken c4 = JStr a /\
      objects s4 !! headers c4 = Some h4 /\
      h4 !! "X-CSRFToken" = Some a /\
      csrfPromise c4 = S (S p2) /\
      promise_status s4 (csrfPromise c4)
        = Some (Settled (Fulfilled (VJs (JStr b)))) /\
      promise_status s4 p1 = Some (Settled (Fulfilled (VJs (JStr a)))) /\
      promise_status s4 p2 = Some (Settled (Fulfilled (VJs (JStr b)))).
Proof.
  intros Hc Hh Hj.
  destruct s as [cs os ps js tr sc]. cbn [clients objects promises jobs] in *.
  subst js.
  js_run. norm_insert. norm_len.
  eexists _, _. eexists _, _. split; [reflexivity|].
  js_run. norm_insert. norm_len. split; [reflexivity|].
  cbv zeta. unfold token_response.
  cbn [ticks]. repeat eval_tick.
  split; [reflexivity|].
  eexists _, _. cbn [clients objects].
  split; [eapply lookup_insert_same; exact Hc|].
  split; [reflexivity|].
  split; [cbn [headers upd_headers]; apply lookup_snoc_new; store_neq|].
  split; [by rewrite lookup_insert_eq|].
  split; [reflexivity|].
  unfold promise_status. cbn [promises csrfPromise upd_headers upd_csrfToken
                                upd_csrfPromise].
  split; [lk; reflexivity|]. split; lk; reflexivity.
Qed.

Lemma crossed_fetches_disagree_witness :
  clients (fresh_client None) !! 0%nat = Some (no_token_client 0%nat 0%nat) /\
  objects (fresh_client None) !! 0%nat = Some ∅ /\
  jobs (fresh_client None) = [] /\
  exists p1 s1 p2 s2,
    getCSRFToken 0%nat (fresh_client None) = Ok p1 s1 /\
    getCSRFToken 0%nat s1 = Ok p2 s2 /\
    let s3 := ticks 4 (exec (deliver (S p2) (inl (token_response "new")))
                         (ticks 2 s2)) in
    let s4 := ticks 4 (exec (deliver (S p1) (inl (token_response "old"))) s3) in
    exists c4,
      clients s4 !! 0%nat = Some c4 /\
      csrfToken c4 = JStr "old" /\
      promise_status s4 (csrfPromise c4)
        = Some (Settled (Fulfilled (VJs (JStr "new")))).
Proof.
  split; [reflexivity|]. split; [reflexivity|]. split; [reflexivity|].
  destruct (crossed_fetches_disagree (fresh_client None) 0%nat
              (no_token_client 0%nat 0%nat) ∅ "old" "new"
              eq_refl eq_refl eq_refl)
    as (p1 & s1 & p2 & s2 & H1 & H2 & H3).
  exists p1, s1, p2, s2. split; [exact H1|]. split; [exact H2|].
  cbv zeta in *.
  destruct H3 as (_ & c4 & h4 & Hc4 & Ht & _ & _ & _ & Hp & _).
  exists c4. split; [exact Hc4|]. split; [exact Ht|exact Hp].
Defined.

Ltac store_neq ::=
  lookup_bounds; repeat rewrite ?length_insert, ?length_app; simpl; lia.



(** ** The registry over several configurations *)

Lemma configure_run s config :
  config_ok s config ->
  let cfg := default empty_config config in
  let this := length (clients s) in
  exists c s',
    PublicAPI.configure config s = Ok this s' /\
    clients s' = clients s ++ [c] /\
    singletonClient s' = Some this /\
    objects s `prefix_of` objects s' /\
    protocol c = default Http (cfg_protocol cfg) /\
    host c = default "localhost" (cfg_host cfg) /\
    mode c = default "same-origin" (cfg_mode cfg) /\
    credentials c = cfg_credentials cfg /\
    timeout c = cfg_timeout cfg /\
    csrfToken c = match cfg_csrfToken cfg with
                  | Some t => JStr t
                  | None => JUndefined
                  end /\
    objects s' !! headers c
      = Some match cfg_csrfToken cfg with
             | Some t => <["X-CSRFToken" := t]> (config_headers s config)
             | None => config_headers s config
             end.
Proof.
  intros Hok cfg this.
  pose proof (constructor_run s config _ (spread_config_ok s config Hok))
    as Hrun. cbv zeta in Hrun. fold cfg in Hrun.
  unfold PublicAPI.configure, bind, modify, ret. rewrite Hrun. subst this.
  destruct s as [cs os ps js tr sc]. cbn [clients objects promises].
  destruct (cfg_csrfToken cfg) as [t|]; cbn;
    (eexists _, _; split; [reflexivity|]); cbn;
    (split; [reflexivity|]); (split; [reflexivity|]).
  - split; [do 2 apply prefix_app_r; reflexivity|].
    repeat (split; [reflexivity|]). apply lookup_snoc_new.
    rewrite length_app. cbn. lia.
  - split; [apply prefix_app_r; reflexivity|].
    repeat (split; [reflexivity|]). by apply lookup_snoc_new.
Qed.

Lemma config_ok_prefix s s' config :
  objects s `prefix_of` objects s' ->
  config_ok s config ->
  config_ok s' config /\ config_headers s' config = config_headers s config.
Proof.
  unfold config_ok, config_headers. intros Hp Hok.
  destruct (cfg_headers _) as [r|]; [|done].
  destruct Hok as [h Hh].
  pose proof (prefix_lookup_Some _ _ _ _ Hh Hp) as Hh'.
  split; [exists h; exact Hh'|].
  exact (f_equal (default ∅) (eq_trans Hh' (eq_sym Hh))).
Qed.

(** X12. [configure] called twice: the registry holds the second client,
    whose settings come from the second config and the defaults alone, and
    its entry points are the methods of that client; the first client is a
    different one and stays as it was.  [reset] clears the slot and nothing
    else, and [configure] after it holds a new client again. *)
Theorem configure_replaces_the_instance s config1 config2 :
  config_ok s config1 ->
  config_ok s config2 ->
  let cfg2 := default empty_config config2 in
  exists this1 s1 this2 s2 c1 c2,
    PublicAPI.configure config1 s = Ok this1 s1 /\
    PublicAPI.configure config2 s1 = Ok this2 s2 /\
    this1 <> this2 /\
    singletonClient s2 = Some this2 /\
    clients s1 !! this1 = Some c1 /\
    clients s2 !! this1 = Some c1 /\
    clients s2 !! this2 = Some c2 /\
    protocol c2 = default Http (cfg_protocol cfg2) /\
    host c2 = default "localhost" (cfg_host cfg2) /\
    mode c2 = default "same-origin" (cfg_mode cfg2) /\
    credentials c2 = cfg_credentials cfg2 /\
    timeout c2 = cfg_timeout cfg2 /\
    csrfToken c2 = match cfg_csrfToken cfg2 with
                   | Some t => JStr t
                   | None => JUndefined
                   end /\
    objects s2 !! headers c2
      = Some match cfg_csrfToken cfg2 with
             | Some t => <["X-CSRFToken" := t]> (config_headers s config2)
             | None => config_headers s config2
             end /\
    (forall r force,
       PublicAPI.get r s2 = get this2 r s2 /\
       PublicAPI.post r s2 = post this2 r s2 /\
       PublicAPI.init force s2 = init this2 force s2 /\
       PublicAPI.isAuthenticated s2 = isAuthenticated this2 s2 /\
       PublicAPI.reAuthenticate s2 = init this2 (Some true) s2) /\
    exists s3 this3 s4,
      PublicAPI.reset s2 = Ok tt s3 /\
      s3 = with_singleton None s2 /\
      PublicAPI.configure config1 s3 = Ok this3 s4 /\
      this3 <> this1 /\ this3 <> this2 /\
      singletonClient s4 = Some this3 /\
      clients s4 !! this1 = Some c1 /\
      clients s4 !! this2 = Some c2.
Proof.
  intros Hok1 Hok2 cfg2.
  destruct (configure_run s config1 Hok1)
    as (c1 & s1 & H1 & Hcs1 & Hsc1 & Hos1 & _).
  destruct (config_ok_prefix s s1 config2 Hos1 Hok2) as [Hok2' Hch2].
  destruct (configure_run s1 config2 Hok2')
    as (c2 & s2 & H2 & Hcs2 & Hsc2 & Hos2 & Hf).
  fold cfg2 in Hf. rewrite Hch2 in Hf.
  destruct Hf as (Hf1 & Hf2 & Hf3 & Hf4 & Hf5 & Hf6 & Hf7).
  assert (config_ok (with_singleton None s2) config1) as Hok1'.
  { apply (config_ok_prefix s (with_singleton None s2) config1); [|done].
    cbn [objects with_singleton]. by etrans. }
  destruct (configure_run _ config1 Hok1')
    as (c3 & s4 & H4 & Hcs4 & Hsc4 & _).
  cbn [clients with_singleton] in H4, Hcs4, Hsc4.
  assert (clients s1 !! length (clients s) = Some c1) as Hl1
    by (rewrite Hcs1; by apply lookup_snoc_new).
  assert (clients s2 !! length (clients s) = Some c1) as Hl2
    by (rewrite Hcs2; by apply lookup_snoc_old).
  assert (clients s2 !! length (clients s1) = Some c2) as Hl3
    by (rewrite Hcs2; by apply lookup_snoc_new).
  assert (length (clients s1) = S (length (clients s))) as Hlen1
    by (rewrite Hcs1, length_app; cbn; lia).
  assert (length (clients s2) = S (S (length (clients s)))) as Hlen2
    by (rewrite Hcs2, length_app, Hlen1; cbn; lia).
  exists (length (clients s)), s1, (length (clients s1)), s2, c1, c2.
  split; [exact H1|]. split; [exact H2|]. split; [lia|].
  split; [exact Hsc2|]. split; [exact Hl1|]. split; [exact Hl2|].
  split; [exact Hl3|].
  do 7 (split; [assumption|]).
  split.
  { intros r force.
    unfold PublicAPI.get, PublicAPI.post, PublicAPI.init,
      PublicAPI.isAuthenticated, PublicAPI.reAuthenticate.
    by rewrite !(on_instance_some _ s2 _ Hsc2). }
  exists (with_singleton None s2), (length (clients s2)), s4.
  split; [reflexivity|]. split; [reflexivity|]. split; [exact H4|].
  split; [lia|]. split; [lia|]. split; [exact Hsc4|].
  rewrite Hcs4. split; by apply lookup_snoc_old.
Qed.

Lemma configure_replaces_the_instance_witness :
  config_ok caller_state (Some (config_with_headers 0%nat)) /\
  config_ok caller_state None /\
  exists this1 s1 this2 s2 c1 c2,
    PublicAPI.configure (Some (config_with_headers 0%nat)) caller_state
      = Ok this1 s1 /\
    PublicAPI.configure None s1 = Ok this2 s2 /\
    clients s2 !! this1 = Some c1 /\
    clients s2 !! this2 = Some c2 /\
    host c2 = "localhost" /\
    objects s2 !! headers c2 = Some ∅.
Proof.
  assert (config_ok caller_state (Some (config_with_headers 0%nat))) as H1.
  { vm_compute. eexists. reflexivity. }
  assert (config_ok caller_state None) as H2 by exact I.
  split; [exact H1|]. split; [exact H2|].
  destruct (configure_replaces_the_instance caller_state
              (Some (config_with_headers 0%nat)) None H1 H2)
    as (this1 & s1 & this2 & s2 & c1 & c2 & E1 & E2 & _ & _ & _ & E3 & E4 &
        _ & E5 & _ & _ & _ & _ & E6 & _).
  exists this1, s1, this2, s2, c1, c2.
  split; [exact E1|]. split; [exact E2|]. split; [exact E3|].
  split; [exact E4|]. split; [exact E5|exact E6].
Defined.


(** ** Requests behind a fetch that fails *)

(** X13. A request made while a token fetch is in flight shares the fate of
    a failed fetch: when the fetch is rejected (the transport fails, the
    callback throws on a [null] body, or the response carries no token), the
    promise of the request is rejected with the same payload, and the token
    request remains the only transport call. *)
Theorem waiting_request_fails_with_fetch s this c hs m r outcome payload :
  clients s !! this = Some c ->
  objects s !! headers c = Some hs ->
  jobs s = [] ->
  fetch_rejection outcome = Some payload ->
  exists o s1 o2 s2,
    getCSRFToken this s = Ok o s1 /\
    request m this r s1 = Ok o2 s2 /\
    let s3 := ticks 6 (exec (deliver (S o) outcome) (ticks 2 s2)) in
    jobs s3 = [] /\
    promise_status s3 o = Some (Settled (Rejected payload)) /\
    promise_status s3 o2 = Some (Settled (Rejected payload)) /\
    api_calls (new_events s s3) = [token_call c hs].
Proof.
  intros Hc Hh Hj Hrej.
  destruct s as [cs os ps js tr sc]. cbn [clients objects jobs] in Hc, Hh, Hj.
  subst js.
  pose proof (getCSRFToken_run
                {| clients := cs; objects := os; promises := ps; jobs := [];
                   trace := tr; singletonClient := sc |} this c hs Hc Hh)
    as Hrun.
  cbn [clients objects promises jobs trace singletonClient app] in Hrun.
  assert (forall A (x y : A), Some x = Some y -> x = y) as Hinj
    by (intros A x y [= ->]; reflexivity).
  destruct m;
    (eexists _, _; eexists _, _; split; [exact Hrun|];
     split; [js_run; norm_insert; norm_len; reflexivity|]);
    cbv zeta;
    (destruct outcome as [[j txt]|e];
     [ unfold fetch_rejection, fetched_token in Hrej; cbn [json] in Hrej;
       destruct j as [| |b|n|str|xs|fs|nm msg]; cbn in Hrej;
       try (destruct (field "csrf_token" fs) eqn:Hf; cbn in Hrej);
       try discriminate Hrej
     | cbn in Hrej ]);
    apply Hinj in Hrej; subst payload;
    cbn [ticks]; repeat eval_tick;
    (split; [reflexivity|]);
    (split; [unfold promise_status; cbn [promises]; lk; reflexivity|]);
    (split; [unfold promise_status; cbn [promises]; lk; reflexivity|]);
    (erewrite new_events_app
       by (cbn [trace]; rewrite <- ?app_assoc; reflexivity));
    reflexivity.
Qed.

Lemma waiting_request_fails_with_fetch_witness :
  clients (fresh_client None) !! 0%nat = Some (no_token_client 0%nat 0%nat) /\
  objects (fresh_client None) !! 0%nat = Some ∅ /\
  jobs (fresh_client None) = [] /\
  fetch_rejection (inl {| json := JNull; text := None |})
    = Some (JErr "TypeError" "Cannot read property 'csrf_token' of null") /\
  exists o s1 o2 s2,
    getCSRFToken 0%nat (fresh_client None) = Ok o s1 /\
    request GET 0%nat (request_to "/api/x") s1 = Ok o2 s2 /\
    promise_status
      (ticks 6 (exec (deliver (S o) (inl {| json := JNull; text := None |}))
                  (ticks 2 s2))) o2
    = Some (Settled (Rejected
              (JErr "TypeError" "Cannot read property 'csrf_token' of null"))).
Proof.
  split; [reflexivity|]. split; [reflexivity|]. split; [reflexivity|].
  split; [reflexivity|].
  destruct (waiting_request_fails_with_fetch (fresh_client None) 0%nat
              (no_token_client 0%nat 0%nat) ∅ GET (request_to "/api/x")
              (inl {| json := JNull; text := None |})
              (JErr "TypeError" "Cannot read property 'csrf_token' of null")
              eq_refl eq_refl eq_refl eq_refl)
    as (o & s1 & o2 & s2 & H1 & H2 & H3).
  exists o, s1, o2, s2. split; [exact H1|]. split; [exact H2|].
  cbv zeta in H3. exact (proj1 (proj2 (proj2 H3))).
Defined.

(** ** The token on the requests *)

Lemma reachable_invariant s : reachable s -> invariant s.
Proof.
  revert s. unfold reachable. apply rtc_ind_r.
  - intros this c Hc. discriminate Hc.
  - intros s1 s2 _ Hstep IH. by eapply step_preserves.
Qed.

(** X14. In every state that an execution reaches, whatever is queued:
    when the callback of a [get] or [post] runs while the token of the
    client is a string, the transport call it makes carries that token in
    [X-CSRFToken], unless the request brings an [X-CSRFToken] header
    itself, which then wins.  In particular, a request made with an empty
    microtask queue on a client whose token is a string and whose pending
    promise is fulfilled goes out with that token. *)
Theorem request_carries_the_token :
  (forall s this c t rh m r d v q,
     reachable s ->
     clients s !! this = Some c ->
     csrfToken c = JStr t ->
     request_headers s r = Some rh ->
     jobs s = JReact (RThen (handler_of m this r) d) (Fulfilled v) :: q ->
     exists a p,
       new_events s (tick s) = [EvCallApi a p] /\
       api_method a = m /\
       api_headers a !! "X-CSRFToken"
         = Some (default t (rh !! "X-CSRFToken"))) /\
  (forall s this c b v t rh m r,
     reachable s ->
     clients s !! this = Some c ->
     csrfToken c = JStr t ->
     promises s !! csrfPromise c
       = Some {| of_transport := b; status := Settled (Fulfilled v) |} ->
     request_headers s r = Some rh ->
     jobs s = [] ->
     exists o s1 a,
       request m this r s = Ok o s1 /\
       api_calls (new_events s (ticks 3 s1)) = [a] /\
       api_headers a !! "X-CSRFToken"
         = Some (default t (rh !! "X-CSRFToken"))).
Proof.
  split.
  - intros s this c t rh m r d v q Hreach Hc Ht Hr Hj.
    destruct (reachable_invariant s Hreach this c Hc) as [_ Hinv].
    destruct (Hinv t Ht) as (hs & Hh & Hx).
    destruct s as [cs os ps js tr sc].
    cbn [clients objects promises jobs] in *. subst js.
    unfold request_headers in Hr. cbn [objects] in Hr.
    assert (forall (rh0 : Headers),
              (rh0 ∪ hs) !! "X-CSRFToken"
              = Some (default t (rh0 !! "X-CSRFToken"))) as Hu.
    { intros rh0. rewrite lookup_union, Hx.
      by destruct (rh0 !! "X-CSRFToken"). }
    destruct (req_headers r) as [x|] eqn:Hreq; [|injection Hr as <-];
      destruct m; unfold tick; js_run;
      (eexists _, _; split;
       [apply new_events_app; cbn [trace]; reflexivity|];
       split; [reflexivity|]; cbn [api_headers]; apply Hu).
  - intros s this c b v t rh m r Hreach Hc Ht Hp Hr Hj.
    destruct (reachable_invariant s Hreach this c Hc) as [_ Hinv].
    destruct (Hinv t Ht) as (hs & Hh & Hx).
    destruct (request_sent s this c b v hs rh m r Hc Hp Hh Hr Hj)
      as (s1 & H1 & _ & H3 & _).
    exists (length (promises s)), s1, (sent_call m c hs rh r).
    split; [exact H1|].
    split; [erewrite new_events_app by (by rewrite H3); reflexivity|].
    unfold sent_call. cbn [api_headers]. rewrite lookup_union, Hx.
    by destruct (rh !! "X-CSRFToken").
Qed.

Lemma request_carries_the_token_witness :
  let s0 := fresh_client (Some "abc") in
  let s1 := exec (get 0%nat (request_to "/api/x")) s0 in
  reachable s0 /\ reachable s1 /\
  clients s0 !! 0%nat = Some (abc_client 1%nat 1%nat) /\
  clients s1 !! 0%nat = Some (abc_client 1%nat 1%nat) /\
  promises s0 !! 1%nat
    = Some {| of_transport := false;
              status := Settled (Fulfilled (VJs (JStr "abc"))) |} /\
  request_headers s0 (request_to "/api/x") = Some ∅ /\
  request_headers s1 (request_to "/api/x") = Some ∅ /\
  jobs s0 = [] /\
  jobs s1 = JReact (RThen (handler_of GET 0%nat (request_to "/api/x")) 3%nat)
              (Fulfilled (VJs (JStr "abc"))) :: [JAdopt 2%nat 3%nat] /\
  (exists a p,
     new_events s1 (tick s1) = [EvCallApi a p] /\
     api_headers a !! "X-CSRFToken" = Some "abc") /\
  (exists o s2 a,
     request POST 0%nat (request_to "/api/x") s0 = Ok o s2 /\
     api_calls (new_events s0 (ticks 3 s2)) = [a] /\
     api_headers a !! "X-CSRFToken" = Some "abc").
Proof.
  cbv zeta.
  assert (reachable (fresh_client (Some "abc"))) as Hr0.
  { apply (run_reachable [ANew (Some (config_with_token (Some "abc")))] initial).
    - apply rtc_refl.
    - vm_compute. reflexivity. }
  assert (reachable (exec (get 0%nat (request_to "/api/x"))
                       (fresh_client (Some "abc")))) as Hr1.
  { apply (run_reachable [AGet 0%nat (request_to "/api/x")]
             (fresh_client (Some "abc"))); [exact Hr0|].
    vm_compute. reflexivity. }
  split; [exact Hr0|]. split; [exact Hr1|].
  split; [reflexivity|]. split; [vm_compute; reflexivity|].
  split; [reflexivity|]. split; [reflexivity|].
  split; [vm_compute; reflexivity|]. split; [reflexivity|].
  assert (jobs (exec (get 0%nat (request_to "/api/x"))
                  (fresh_client (Some "abc")))
          = JReact (RThen (handler_of GET 0%nat (request_to "/api/x")) 3%nat)
              (Fulfilled (VJs (JStr "abc"))) :: [JAdopt 2%nat 3%nat]) as Hj
    by (vm_compute; reflexivity).
  split; [exact Hj|].
  split.
  - destruct (proj1 request_carries_the_token
                (exec (get 0%nat (request_to "/api/x"))
                   (fresh_client (Some "abc")))
                0%nat (abc_client 1%nat 1%nat) "abc" ∅ GET
                (request_to "/api/x") 3%nat (VJs (JStr "abc"))
                [JAdopt 2%nat 3%nat] Hr1)
      as (a & p & H1 & _ & H2);
      [vm_compute; reflexivity|reflexivity|vm_compute; reflexivity|exact Hj|].
    exists a, p. split; [exact H1|exact H2].
  - exact (proj2 request_carries_the_token (fresh_client (Some "abc")) 0%nat
             (abc_client 1%nat 1%nat) false (VJs (JStr "abc")) "abc" ∅ POST
             (request_to "/api/x") Hr0 eq_refl eq_refl eq_refl eq_refl
             eq_refl).
Defined.

(** ** Where the fields of a client are written *)

(** X15. The token, the header reference and the pending promise of an
    existing client are written in two places only.  An entry point that
    may fetch clears the token and replaces the pending promise; the
    microtask of the fetch callback sets the token and the header
    reference.  Every other action leaves the three fields alone. *)
Theorem client_fields_change_only_by_fetch a s this c :
  clients s !! this = Some c ->
  match perform a s with
  | Ok _ s' | Exn _ s' =>
      exists c',
        clients s' !! this = Some c' /\
        (csrfToken c' = csrfToken c \/
         csrfToken c' = JUndefined /\ may_fetch a = true \/
         is_token_tick this a s = true) /\
        (headers c' = headers c \/ is_token_tick this a s = true) /\
        (csrfPromise c' = csrfPromise c \/ may_fetch a = true)
  | Stuck => True
  end.
Proof.
  destruct s as [cs os ps js tr sc]. cbn [clients]. intros Hc.
  destruct a; js_unfold; cbn; js_steps; try exact I.
  all: try by (eexists; split; [reflexivity|]; repeat split; by left).
  all: match goal with
       | |- context [<[?i:=_]> _ !! ?t] =>
           destruct (decide (i = t)) as [Heq|Hne];
           [ rewrite ?Heq in *;
             match goal with
             | H : _ !! _ = Some ?d |- context [upd_csrfToken _ ?d] =>
                 injection (eq_trans (eq_sym Hc) H) as <-
             end;
             eexists; split; [solve_lookup|]
           | rewrite !list_lookup_insert_ne by done;
             eexists; split; [eassumption|]; repeat split; by left ]
       end.
  all: cbn; rewrite ?bool_decide_eq_true_2 by reflexivity.
  all: try by (repeat split; first [by left | by right | by (right; left)
                                   | by (right; right)]).
  all: match goal with |- ?G => idtac G end.
Qed.

Lemma client_fields_change_only_by_fetch_witness :
  clients (fresh_client (Some "abc")) !! 0%nat
    = Some (abc_client 1%nat 1%nat) /\
  match perform (AGetCSRFToken 0%nat) (fresh_client (Some "abc")) with
  | Ok _ s' | Exn _ s' =>
      exists c',
        clients s' !! 0%nat = Some c' /\
        (csrfToken c' = csrfToken (abc_client 1%nat 1%nat) \/
         csrfToken c' = JUndefined /\ may_fetch (AGetCSRFToken 0%nat) = true \/
         is_token_tick 0%nat (AGetCSRFToken 0%nat) (fresh_client (Some "abc"))
           = true) /\
        (headers c' = headers (abc_client 1%nat 1%nat) \/
         is_token_tick 0%nat (AGetCSRFToken 0%nat) (fresh_client (Some "abc"))
           = true) /\
        (csrfPromise c' = csrfPromise (abc_client 1%nat 1%nat) \/
         may_fetch (AGetCSRFToken 0%nat) = true)
  | Stuck => True
  end.
Proof.
  split; [reflexivity|].
  exact (client_fields_change_only_by_fetch (AGetCSRFToken 0%nat)
           (fresh_client (Some "abc")) 0%nat (abc_client 1%nat 1%nat)
           eq_refl).
Defined.

(** ** Several requests behind one fetch *)

(** X16. Two requests made while a token fetch is in flight are held back
    until the response, and then go out in the order in which they were
    made, once each, with the fetched token in their headers. *)
Theorem waiting_requests_are_sent_in_order
    s this c hs fs tok m1 m2 r1 r2 rh1 rh2 :
  clients s !! this = Some c ->
  objects s !! headers c = Some hs ->
  jobs s = [] ->
  request_headers s r1 = Some rh1 ->
  request_headers s r2 = Some rh2 ->
  field "csrf_token" fs = JStr tok ->
  exists o s1 o1 s2 o2 s3,
    getCSRFToken this s = Ok o s1 /\
    request m1 this r1 s1 = Ok o1 s2 /\
    request m2 this r2 s2 = Ok o2 s3 /\
    api_calls (new_events s (ticks 3 s3)) = [token_call c hs] /\
    jobs (ticks 3 s3) = [] /\
    let s4 := ticks 10 (exec (deliver (S o)
                                (inl {| json := JObj fs; text := None |}))
                          (ticks 3 s3)) in
    api_calls (new_events s s4)
      = [token_call c hs;
         sent_call m1 c (<["X-CSRFToken" := tok]> hs) rh1 r1;
         sent_call m2 c (<["X-CSRFToken" := tok]> hs) rh2 r2] /\
    jobs s4 = [].
Proof.
  intros Hc Hh Hj Hr1 Hr2 Hf.
  destruct s as [cs os ps js tr sc]. cbn [clients objects jobs] in *.
  subst js.
  pose proof (getCSRFToken_run
                {| clients := cs; objects := os; promises := ps; jobs := [];
                   trace := tr; singletonClient := sc |} this c hs Hc Hh)
    as Hrun.
  cbn [clients objects promises jobs trace singletonClient app] in Hrun.
  unfold request_headers in Hr1, Hr2. cbn [objects] in Hr1, Hr2.
  destruct (req_headers r1) as [x1|] eqn:Hx1; [|injection Hr1 as <-];
    (destruct (req_headers r2) as [x2|] eqn:Hx2; [|injection Hr2 as <-]);
    destruct m1, m2;
    (eexists _, _; eexists _, _; eexists _, _; split; [exact Hrun|];
     split; [js_run; norm_insert; norm_len; reflexivity|];
     split; [js_run; norm_insert; norm_len; reflexivity|]);
    cbn [ticks]; repeat eval_tick;
    (split; [erewrite new_events_app by reflexivity; reflexivity|]);
    (split; [reflexivity|]);
    (split; [|reflexivity]);
    (erewrite new_events_app
       by (cbn [trace]; rewrite <- ?app_assoc; reflexivity));
    reflexivity.
Qed.

Lemma waiting_requests_are_sent_in_order_witness :
  clients (fresh_client None) !! 0%nat = Some (no_token_client 0%nat 0%nat) /\
  objects (fresh_client None) !! 0%nat = Some ∅ /\
  jobs (fresh_client None) = [] /\
  request_headers (fresh_client None) (request_to "/api/x") = Some ∅ /\
  request_headers (fresh_client None) (request_to "/api/y") = Some ∅ /\
  field "csrf_token" [("csrf_token", JStr "abc")] = JStr "abc" /\
  exists o s1 o1 s2 o2 s3,
    getCSRFToken 0%nat (fresh_client None) = Ok o s1 /\
    request POST 0%nat (request_to "/api/x") s1 = Ok o1 s2 /\
    request GET 0%nat (request_to "/api/y") s2 = Ok o2 s3 /\
    map api_url
      (api_calls
         (new_events (fresh_client None)
            (ticks 10 (exec (deliver (S o) (inl (token_response "abc")))
                         (ticks 3 s3)))))
    = ["http://localhost/superset/csrf_token/"; "http://localhost/api/x";
       "http://localhost/api/y"].
Proof.
  split; [reflexivity|]. split; [reflexivity|]. split; [reflexivity|].
  split; [reflexivity|]. split; [reflexivity|]. split; [reflexivity|].
  destruct (waiting_requests_are_sent_in_order (fresh_client None) 0%nat
              (no_token_client 0%nat 0%nat) ∅ [("csrf_token", JStr "abc")]
              "abc" POST GET (request_to "/api/x") (request_to "/api/y") ∅ ∅
              eq_refl eq_refl eq_refl eq_refl eq_refl eq_refl)
    as (o & s1 & o1 & s2 & o2 & s3 & H1 & H2 & H3 & _ & _ & H4).
  exists o, s1, o1, s2, o2, s3.
  split; [exact H1|]. split; [exact H2|]. split; [exact H3|].
  cbv zeta in H4. destruct H4 as [H4 _].
  unfold token_response. rewrite H4. vm_compute. reflexivity.
Defined.


(** ** A fetch that starts after a request *)

(** X17. A request holds the promise that was pending when it was made: a
    forced [init] that follows the call of [get] or [post] at once does not
    hold the request back.  The token request goes out first, from [init]
    itself; the request follows in its microtask, while the fetch is in
    flight and the client is unauthenticated, with the headers that the
    client had before. *)
Theorem earlier_request_is_not_held_back s this c b v hs rh m r :
  clients s !! this = Some c ->
  promises s !! csrfPromise c
    = Some {| of_transport := b; status := Settled (Fulfilled v) |} ->
  objects s !! headers c = Some hs ->
  request_headers s r = Some rh ->
  jobs s = [] ->
  exists o s1 p s2,
    request m this r s = Ok o s1 /\
    init this (Some true) s1 = Ok p s2 /\
    let s3 := ticks 4 s2 in
    api_calls (new_events s s3) = [token_call c hs; sent_call m c hs rh r] /\
    isAuthenticated this s3 = Ok false s3 /\
    jobs s3 = [].
Proof.
  intros Hc Hp Hh Hr Hj.
  destruct s as [cs os ps js tr sc]. cbn [clients objects promises jobs] in *.
  subst js. unfold request_headers in Hr. cbn [objects] in Hr.
  destruct (req_headers r) as [x|] eqn:Hx; [|injection Hr as <-];
    destruct m;
    (eexists _, _; eexists _, _;
     split; [js_run; norm_insert; norm_len; reflexivity|];
     split; [erewrite init_forced by (cbn [clients]; solve_lookup);
             js_run; norm_insert; norm_len; reflexivity|]);
    cbv zeta; cbn [ticks]; repeat eval_tick;
    (split; [erewrite new_events_app
               by (cbn [trace]; rewrite <- ?app_assoc; reflexivity);
             reflexivity|]);
    (split; [js_run; reflexivity|reflexivity]).
Qed.

Lemma earlier_request_is_not_held_back_witness :
  clients (fresh_client (Some "abc")) !! 0%nat
    = Some (abc_client 1%nat 1%nat) /\
  promises (fresh_client (Some "abc")) !! 1%nat
    = Some {| of_transport := false;
              status := Settled (Fulfilled (VJs (JStr "abc"))) |} /\
  objects (fresh_client (Some "abc")) !! 1%nat
    = Some {["X-CSRFToken" := "abc"]} /\
  request_headers (fresh_client (Some "abc")) (request_to "/api/x") = Some ∅ /\
  jobs (fresh_client (Some "abc")) = [] /\
  exists o s1 p s2,
    request GET 0%nat (request_to "/api/x") (fresh_client (Some "abc"))
      = Ok o s1 /\
    init 0%nat (Some true) s1 = Ok p s2 /\
    map api_url (api_calls (new_events (fresh_client (Some "abc"))
                              (ticks 4 s2)))
    = ["http://localhost/superset/csrf_token/"; "http://localhost/api/x"].
Proof.
  split; [reflexivity|]. split; [reflexivity|]. split; [reflexivity|].
  split; [reflexivity|]. split; [reflexivity|].
  destruct (earlier_request_is_not_held_back (fresh_client (Some "abc"))
              0%nat (abc_client 1%nat 1%nat) false (VJs (JStr "abc"))
              {["X-CSRFToken" := "abc"]} ∅ GET (request_to "/api/x")
              eq_refl eq_refl eq_refl eq_refl eq_refl)
    as (o & s1 & p & s2 & H1 & H2 & H3).
  exists o, s1, p, s2. split; [exact H1|]. split; [exact H2|].
  cbv zeta in H3. destruct H3 as [H3 _]. rewrite H3. vm_compute. reflexivity.
Defined.


(** ** Methods return, they do not throw *)

Ltac wf_lengths :=
  cbn [headers csrfPromise upd_headers upd_csrfToken upd_csrfPromise];
  repeat rewrite ?length_insert, ?length_app; cbn [length]; lia.

Ltac wf_known Hcl :=
  repeat match goal with
         | H : ?l !! ?i = Some ?x |- _ =>
             lazymatch type of x with
             | SupersetClient =>
                 lazymatch goal with
                 | _ : (headers x < _)%nat |- _ => fail
                 | _ => let H1 := fresh in let H2 := fresh in
                        pose proof (Hcl _ _ H) as [H1 H2]
                 end
             end
         end.

Ltac wf_clients Hcl Hx :=
  first
    [ apply Hcl in Hx; destruct Hx; split; wf_lengths
    | apply lookup_app_Some in Hx; destruct Hx as [Hx|[_ Hx]];
      [ wf_clients Hcl Hx
      | apply list_lookup_singleton_Some in Hx; destruct Hx as [_ <-];
        split; wf_lengths ]
    | apply list_lookup_insert_Some in Hx;
      destruct Hx as [(_ & <- & _)|[_ Hx]];
      [ split; wf_lengths | wf_clients Hcl Hx ] ].

Lemma perform_well_formed a s :
  well_formed s ->
  match perform a s with
  | Ok _ s' | Exn _ s' => well_formed s'
  | Stuck => True
  end.
Proof.
  destruct s as [cs os ps js tr sc]. unfold well_formed. cbn.
  intros [Hs Hcl].
  destruct a; js_unfold; cbn; js_steps; try exact I;
    try (split; assumption);
    wf_known Hcl;
    (split;
     [ let i := fresh "i" in let Ht := fresh "Ht" in
       intros i Ht;
       first [ discriminate Ht
             | injection Ht as <-; wf_lengths
             | apply Hs in Ht; wf_lengths ]
     | let i := fresh "i" in let x := fresh "x" in let Hx := fresh "Hx" in
       intros i x Hx; wf_clients Hcl Hx ]).
Qed.

Lemma reachable_well_formed s : reachable s -> well_formed s.
Proof.
  revert s. unfold reachable. apply rtc_ind_r.
  - split; [intros this H; discriminate H|intros this c H; discriminate H].
  - intros s1 s2 _ Hstep IH.
    inversion Hstep as [a ? ? Ho|r k v ? ? _ Hm]; subst.
    + pose proof (perform_well_formed a s1 IH) as Hp.
      destruct (perform a s1); cbn in Ho; try discriminate;
        by injection Ho as <-.
    + revert Hm. destruct s1 as [cs os ps js tr sc]. js_unfold. cbn.
      destruct (os !! r); cbn; [|discriminate]. intros [= <-].
      destruct IH as [Hs Hcl]. split; [exact Hs|]. cbn in *.
      intros this c Hc. rewrite length_insert. by apply (Hcl this).
Qed.

(** X18. In every state that an execution reaches, the methods of an
    existing client return: [isAuthenticated] a boolean and [ensureAuth] a
    promise, without changing the state; [init], [getCSRFToken], [get] and
    [post] a promise.  None of them throws: failures only show as rejected
    promises.  The same holds for the entry points of the registry when it
    holds a client. *)
Theorem methods_return_and_never_throw s this :
  reachable s ->
  is_Some (clients s !! this) ->
  (exists b, isAuthenticated this s = Ok b s) /\
  (exists p, ensureAuth this s = Ok p s /\
             is_Some (promises s !! p)) /\
  (forall force, exists p s', init this force s = Ok p s') /\
  (exists p s', getCSRFToken this s = Ok p s') /\
  (forall m r, exists p s', request m this r s = Ok p s') /\
  (forall held,
     singletonClient s = Some held ->
     (forall r, exists p s', PublicAPI.get r s = Ok p s') /\
     (forall r, exists p s', PublicAPI.post r s = Ok p s') /\
     (forall force, exists p s', PublicAPI.init force s = Ok p s') /\
     (exists p s', PublicAPI.reAuthenticate s = Ok p s') /\
     (exists b, PublicAPI.isAuthenticated s = Ok b s)).
Proof.
  intros Hreach Hsome.
  destruct (reachable_well_formed s Hreach) as [Hs Hcl].
  assert (forall t, is_Some (clients s !! t) ->
     (exists b, isAuthenticated t s = Ok b s) /\
     (exists p, ensureAuth t s = Ok p s /\ is_Some (promises s !! p)) /\
     (forall force, exists p s', init t force s = Ok p s') /\
     (exists p s', getCSRFToken t s = Ok p s') /\
     (forall m r, exists p s', request m t r s = Ok p s')) as Hall.
  { clear this Hsome. intros this [c Hc].
    destruct (Hcl this c Hc) as [Hh Hp].
    apply lookup_lt_is_Some in Hh, Hp.
    destruct Hh as [hs Hh]. destruct Hp as [[b st] Hp].
    destruct s as [cs os ps js tr sc]. cbn [clients objects promises] in *.
    split; [js_run; by eexists|].
    split; [js_run; eexists; split; [reflexivity|by eexists]|].
    split.
    { intros [[|]|]; js_run; destruct (csrfToken c); cbn; js_steps;
        by eexists _, _. }
    split; [js_run; by eexists _, _|].
    intros m r. destruct m, st as [rs|o]; js_run; by eexists _, _. }
  destruct (Hall this Hsome) as (H1 & H2 & H3 & H4 & H5).
  split; [exact H1|]. split; [exact H2|]. split; [exact H3|].
  split; [exact H4|]. split; [exact H5|].
  intros held Hheld.
  assert (is_Some (clients s !! held)) as Hsome'
    by (apply lookup_lt_is_Some; by apply Hs).
  destruct (Hall held Hsome') as (G1 & G2 & G3 & G4 & G5).
  unfold PublicAPI.get, PublicAPI.post, PublicAPI.init,
    PublicAPI.isAuthenticated, PublicAPI.reAuthenticate.
  split; [intros r; rewrite (on_instance_some _ s held Hheld);
          exact (G5 GET r)|].
  split; [intros r; rewrite (on_instance_some _ s held Hheld);
          exact (G5 POST r)|].
  split; [intros force; rewrite (on_instance_some _ s held Hheld);
          exact (G3 force)|].
  rewrite !(on_instance_some _ s held Hheld).
  split; [exact (G3 (Some true))|exact G1].
Qed.

Lemma methods_return_and_never_throw_witness :
  reachable (fresh_client None) /\
  is_Some (clients (fresh_client None) !! 0%nat) /\
  exists p s', request GET 0%nat (request_to "/api/x") (fresh_client None)
               = Ok p s'.
Proof.
  assert (reachable (fresh_client None)) as Hreach.
  { apply (run_reachable [ANew (Some (config_with_token None))] initial).
    - apply rtc_refl.
    - vm_compute. reflexivity. }
  assert (is_Some (clients (fresh_client None) !! 0%nat)) as Hsome
    by (eexists; reflexivity).
  split; [exact Hreach|]. split; [exact Hsome|].
  destruct (methods_return_and_never_throw (fresh_client None) 0%nat
              Hreach Hsome) as (_ & _ & _ & _ & H & _).
  exact (H GET (request_to "/api/x")).
Defined.

(** X19. The configuration error of the registry is the only exception of
    the module: when an action throws, it is an entry point of the registry
    that needs an instance, called while none is held, and the state is
    untouched.  No method of the class, no microtask and no delivery
    throws. *)
Theorem only_the_registry_throws a s e s' :
  perform a s = Exn e s' ->
  e = not_configured /\ s' = s /\ singletonClient s = None /\
  needs_instance a = true.
Proof.
  destruct s as [cs os ps js tr sc].
  destruct a; js_unfold; cbn; js_steps; intros H; try discriminate H;
    injection H as <- <-; done.
Qed.

Lemma only_the_registry_throws_witness :
  perform (ARegistryGet (request_to "/api/x")) initial
    = Exn not_configured initial /\
  needs_instance (ARegistryGet (request_to "/api/x")) = true.
Proof.
  assert (perform (ARegistryGet (request_to "/api/x")) initial
          = Exn not_configured initial) as H by reflexivity.
  split; [exact H|].
  exact (proj2 (proj2 (proj2 (only_the_registry_throws _ _ _ _ H)))).
Defined.


(** ** The promise that the constructor rejects *)

(** X20. The constructor creates the rejected promise with the message
    about the missing token in every case, also when the config brings a
    token: it is then replaced at once by the fulfilled promise, and the
    rejected one is left without a reference from the client.  Construction
    queues no microtask and calls nothing. *)
Theorem constructor_rejects_before_it_resolves s config :
  config_ok s config ->
  let cfg := default empty_config config in
  let q := length (promises s) in
  exists this s' c,
    constructor config s = Ok this s' /\
    clients s' !! this = Some c /\
    promise_status s' q
      = Some (Settled (Rejected (error_payload
                (no_token_message (getUrl c login_args))))) /\
    jobs s' = jobs s /\
    match cfg_csrfToken cfg with
    | Some t =>
        csrfPromise c = S q /\
        promise_status s' (S q) = Some (Settled (Fulfilled (VJs (JStr t)))) /\
        new_events s s' = [EvSetCsrfToken this (JStr t);
                           EvSetCsrfPromise this q;
                           EvSetCsrfPromise this (S q)]
    | None =>
        csrfPromise c = q /\
        new_events s s' = [EvSetCsrfToken this JUndefined;
                           EvSetCsrfPromise this q]
    end.
Proof.
  intros Hcfg cfg q.
  pose proof (constructor_run s config _ (spread_config_ok s config Hcfg))
    as Hrun.
  destruct s as [cs os ps js tr sc]. cbn in Hrun. subst q. cbn [promises].
  fold cfg in Hrun.
  destruct (cfg_csrfToken cfg) as [t|];
    (eexists _, _, _; split; [exact Hrun|]); cbn [clients jobs];
    (split; [by apply lookup_snoc_new|]);
    unfold promise_status; cbn [promises].
  - split; [by rewrite (lookup_snoc_old _ _ _ _ (lookup_snoc_new ps _ _ eq_refl))|].
    split; [reflexivity|]. split; [reflexivity|].
    split; [rewrite lookup_snoc_new; [done|by norm_len]|].
    by apply new_events_app.
  - split; [by rewrite lookup_snoc_new|].
    split; [reflexivity|]. split; [reflexivity|].
    by apply new_events_app.
Qed.

Lemma constructor_rejects_before_it_resolves_witness :
  config_ok initial (Some (config_with_token (Some "abc"))) /\
  exists this s' c,
    constructor (Some (config_with_token (Some "abc"))) initial = Ok this s' /\
    clients s' !! this = Some c /\
    csrfPromise c = 1%nat /\
    promise_status s' 1%nat = Some (Settled (Fulfilled (VJs (JStr "abc")))).
Proof.
  assert (config_ok initial (Some (config_with_token (Some "abc")))) as H
    by exact I.
  split; [exact H|].
  destruct (constructor_rejects_before_it_resolves initial
              (Some (config_with_token (Some "abc"))) H)
    as (this & s' & c & H1 & H2 & _ & _ & H4 & H5 & _).
  exists this, s', c. split; [exact H1|]. split; [exact H2|].
  split; [exact H4|exact H5].
Defined.
